(** * taf: a streaming [tail -f] for Node.js

    A shallow embedding of [index.js]: the reverse line scanner
    [readLastLines] with its [readChar] loop, and the session object [Taf]
    with its callbacks ([processFileChange], [setWatcher], [close]).

    Conventions.
    - A byte is an [ascii]; a file content and a JavaScript string are
      [string]s (a JavaScript string is held by its UTF-8 encoding).
    - JavaScript numbers that the code uses as integers ([pos], [from],
      [ctr], [n], [_size]) are [Z].
    - The [fs] object is an interface the module lets its user replace
      ([exports.fs]); it is a record of functions [Fs].  One value of [Fs]
      is what one asynchronous operation observes of the file system.
    - Asynchronous operations are explicit: an operation that was issued and
      whose callback has not run yet sits in the session's [inflight] list;
      the event loop runs one callback at a time ([step]).  A scan is one
      operation: its reads all see the same [Fs], and its callback runs in
      one turn.
    - The session has listeners for [line] and [error], which do not call
      back into it. *)

From Stdlib Require Import ZArith List String Ascii Bool Lia.
Import ListNotations.
Local Open Scope string_scope.
Local Open Scope list_scope.
Local Open Scope Z_scope.

(** ** Bytes and strings *)

(** The byte [10], the newline of the test [buf[0] === 10]. *)
Definition nl : ascii := "010"%char.

(** [buf + cur] converts the one-byte [Buffer] with [toString()], which
    decodes it as UTF-8 on its own: a byte below 128 is that character, any
    other byte is an invalid sequence and becomes U+FFFD (EF BF BD). *)
Definition buf_toString (b : ascii) : string :=
  if (N_of_ascii b <? 128)%N then String b EmptyString
  else String "239" (String "191" (String "189" EmptyString)).

(** The text the scanner builds from a run of bytes, one [buf_toString] per
    byte. *)
Fixpoint bytewise (s : string) : string :=
  match s with
  | EmptyString => EmptyString
  | String b s' => (buf_toString b ++ bytewise s')%string
  end.

(** A run of bytes free of the newline byte. *)
Fixpoint no_nl (s : string) : bool :=
  match s with
  | EmptyString => true
  | String b s' => negb (Ascii.eqb b nl) && no_nl s'
  end.

(** The file made of the given lines, each followed by a newline. *)
Fixpoint file_of_lines (ls : list string) : string :=
  match ls with
  | [] => EmptyString
  | l :: ls' => (l ++ String nl (file_of_lines ls'))%string
  end.

(** ** The file-system interface *)

Definition error := string.

(** Result of a Node-style callback [(err, value)]. *)
Inductive result (A : Type) : Type :=
| Err (e : error)
| Ok (a : A).
Arguments Err {A} e.
Arguments Ok {A} a.

(** What the code uses of [fs]: [stat] (only [stats.size]), [open] (the
    descriptor) and [read] of one byte at a position.  [fs_read fd p] is
    [Ok (Some b)] when one byte [b] was stored in [buf], [Ok None] when no
    byte was read ([buf] keeps its content: the callback ignores
    [bytesRead]).  [fs.close] never reports to the code: its callback
    ignores its argument. *)
Record Fs : Type := {
  fs_stat : string -> result Z;
  fs_open : string -> result Z;
  fs_read : Z -> Z -> result (option ascii)
}.

(** The calls a scan makes on [fs], in order. *)
Inductive fs_call : Type :=
| FsOpen (p : string)
| FsRead (fd pos : Z)
| FsClose (fd : Z).

(** ** readLastLines *)

(** The arguments of the callback [cb(err, lines)]. *)
Inductive cb_args : Type :=
| CbErr (e : error)
| CbOk (lines : list string).

(** The variables of [readLastLines] that [readChar] updates. *)
Record scan : Type := {
  buf : ascii;
  ctr : Z;
  cur : string;
  res : list string;
  pos : Z
}.

(** The body of the callback of [fs.read], from the test of [buf[0]] to
    the end of the [if]/[else]; [r] is what the read stored. *)
Definition on_byte (r : option ascii) (s : scan) : scan :=
  let b := match r with Some b => b | None => buf s end in
  if Ascii.eqb b nl then
    if negb (ctr s =? 0) then
      (* ctr = res.unshift(cur) *)
      let res' := cur s :: res s in
      {| buf := b; ctr := Z.of_nat (List.length res'); cur := EmptyString;
         res := res'; pos := pos s |}
    else
      {| buf := b; ctr := ctr s + 1; cur := EmptyString;
         res := res s; pos := pos s |}
  else
    {| buf := b; ctr := ctr s; cur := (buf_toString b ++ cur s)%string;
       res := res s; pos := pos s |}.

(** [--pos] *)
Definition dec_pos (s : scan) : scan :=
  {| buf := buf s; ctr := ctr s; cur := cur s; res := res s;
     pos := pos s - 1 |}.

(** The test [pos >= from && ctr < n]. *)
Definition again (from n : Z) (s : scan) : bool :=
  (from <=? pos s) && (ctr s <? n).

(** [readChar]: each call reads the byte at [--pos]; the recursion is on
    the number of calls left ([fuel]); [None] is only out of fuel.  The
    result is the calls made on [fs] and the arguments [cb] receives. *)
Fixpoint readChar (fuel : nat) (fs : Fs) (fd from n : Z) (s : scan)
  : option (list fs_call * cb_args) :=
  match fuel with
  | O => None
  | S fuel' =>
    let s1 := dec_pos s in
    match fs_read fs fd (pos s1) with
    | Err e => Some ([FsRead fd (pos s1)], CbErr e)
    | Ok r =>
      let s2 := on_byte r s1 in
      if again from n s2 then
        match readChar fuel' fs fd from n s2 with
        | Some (tr, a) => Some (FsRead fd (pos s1) :: tr, a)
        | None => None
        end
      else Some ([FsRead fd (pos s1); FsClose fd], CbOk (res s2))
    end
  end.

(** Calls of [readChar] that a scan of [from .. pos] can need. *)
Definition scan_fuel (from pos : Z) : nat := S (Z.to_nat (pos - from)).

(** [readLastLines(path, from, pos, n, cb)]; [uninit] is the content of the
    fresh [new Buffer(1)], which is not initialised. *)
Definition scan0 (uninit : ascii) (pos : Z) : scan :=
  {| buf := uninit; ctr := 0; cur := EmptyString; res := []; pos := pos |}.

Definition readLastLines (uninit : ascii) (fs : Fs) (path : string)
  (from pos n : Z) : option (list fs_call * cb_args) :=
  match fs_open fs path with
  | Err e => Some ([FsOpen path], CbErr e)
  | Ok fd =>
    match readChar (scan_fuel from pos) fs fd from n (scan0 uninit pos) with
    | Some (tr, a) => Some (FsOpen path :: tr, a)
    | None => None
    end
  end.

(** ** The session *)

(** An issued operation whose callback has not run yet. *)
Inductive op : Type :=
| OpStatInit (p : string)          (* the constructor's [fs.stat(path, ..)] *)
| OpStatChange (p : string)        (* the listener's [fs.stat(path, ..)] *)
| OpScan (p : string) (from to n : Z). (* [readLastLines(p, from, to, n, ..)] *)

(** The [fs.FSWatcher] with the variable [path] its listener closes over.
    [w_id] tells the watchers of a session apart: it is the number of the
    call of [fs.watch] that made this one, counted from 0. *)
Record Watcher : Type := {
  w_path : string;
  w_closed : bool;
  w_id : nat
}.

(** The fields of [this], the operations in flight, and [watches], the
    number of calls of [fs.watch] made so far: the object has no such
    field, it is the record of an effect. *)
Record Taf : Type := {
  path : string;
  count : Z;
  _size : Z;
  watcher : option Watcher;
  inflight : list op;
  watches : nat
}.

(** What the session emits. *)
Inductive emitted : Type :=
| Line (l : string)
| Error (e : error).

(** What the event loop can run next. *)
Inductive input : Type :=
| Complete (i : nat) (fs : Fs) (uninit : ascii)
    (* the callback of the [i]-th operation in flight, whose I/O saw [fs] *)
| Notify (event : string) (filename : option string)
    (* the watcher calls its listener *)
| Close.
    (* the user calls [close()] *)

Inductive outcome : Type :=
| Stepped (t : Taf) (out : list emitted)
| Threw (msg : string)
| Idle.  (* nothing to run: no such operation, or no watcher to notify *)

Definition set_inflight (l : list op) (t : Taf) : Taf :=
  {| path := path t; count := count t; _size := _size t;
     watcher := watcher t; inflight := l;
     watches := watches t |}.

Definition issue (o : op) (t : Taf) : Taf :=
  set_inflight (inflight t ++ [o]) t.

Fixpoint remove_nth {A : Type} (i : nat) (l : list A) : list A :=
  match l, i with
  | [], _ => []
  | _ :: l', O => l'
  | a :: l', S i' => a :: remove_nth i' l'
  end.

Definition retire (i : nat) (t : Taf) : Taf :=
  set_inflight (remove_nth i (inflight t)) t.

(** [Taf(path, n)] with [n] a number or [undefined]; the session starts
    with the [fs.stat] of [process.nextTick] in flight.  [assert(path)]
    throws on the empty string. *)
Definition Taf_new (p : string) (n : option Z) : option Taf :=
  if String.eqb p EmptyString then None
  else Some {| path := p;
               count := match n with Some n => n | None => 10 end;
               _size := 0;
               watcher := None;
               inflight := [OpStatInit p];
               watches := 0%nat |}.

(** [processFileChange(newSize)]: the call of [readLastLines]. *)
Definition processFileChange (newSize : Z) (t : Taf) : Taf :=
  issue (OpScan (path t) (_size t) newSize (count t)) t.

(** The callback [processFileChange] gives to [readLastLines]. *)
Definition processFileChange_cb (newSize : Z) (a : cb_args) (t : Taf)
  : Taf * list emitted :=
  match a with
  | CbErr e => (t, [Error e])
  | CbOk lines =>
    ({| path := path t; count := count t; _size := newSize;
        watcher := watcher t; inflight := inflight t;
        watches := watches t |},
     map Line lines)
  end.

(** [setWatcher()]: [fs.watch] is taken to succeed. *)
Definition setWatcher (t : Taf) : Taf :=
  {| path := path t; count := count t; _size := _size t;
     watcher := Some {| w_path := path t; w_closed := false;
                        w_id := watches t |};
     inflight := inflight t;
     watches := S (watches t) |}.

(** The callback of the constructor's [fs.stat]. *)
Definition stat_init_cb (r : result Z) (t : Taf) : Taf * list emitted :=
  match r with
  | Err e => (t, [Error e])
  | Ok size => (setWatcher (processFileChange size t), [])
  end.

(** The callback of the listener's [fs.stat]. *)
Definition stat_change_cb (r : result Z) (t : Taf) : Taf * list emitted :=
  match r with
  | Err e => (t, [Error e])
  | Ok size =>
    if _size t <? size then (processFileChange size t, []) else (t, [])
  end.

(** JavaScript truth of the listener's [filename]. *)
Definition truthy (filename : option string) : option string :=
  match filename with
  | Some f => if String.eqb f EmptyString then None else Some f
  | None => None
  end.

Section Session.

(** [path.dirname] and [path.resolve] of Node. *)
Variable dirname : string -> string.
Variable resolve : string -> string -> string.

(** The listener given to [fs.watch]. *)
Definition listener (event : string) (filename : option string)
  (w : Watcher) (t : Taf) : Taf :=
  if String.eqb event "change" then
    issue (OpStatChange (w_path w)) t
  else if String.eqb event "rename" then
    match truthy filename with
    | Some f =>
      let p := resolve (dirname (w_path w)) f in
      {| path := p; count := count t; _size := _size t;
         watcher := Some {| w_path := p; w_closed := w_closed w;
                            w_id := w_id w |};
         inflight := inflight t;
         watches := watches t |}
    | None => t
    end
  else t.

(** [close()]: [this.watcher.close()]. *)
Definition close (t : Taf) : outcome :=
  match watcher t with
  | None => Threw "TypeError"
  | Some w =>
    Stepped {| path := path t; count := count t; _size := _size t;
               watcher := Some {| w_path := w_path w; w_closed := true;
                                  w_id := w_id w |};
               inflight := inflight t;
               watches := watches t |} []
  end.

(** One turn of the event loop. *)
Definition step (i : input) (t : Taf) : outcome :=
  match i with
  | Complete k fs uninit =>
    match nth_error (inflight t) k with
    | None => Idle
    | Some (OpStatInit p) =>
      let (t', out) := stat_init_cb (fs_stat fs p) (retire k t) in
      Stepped t' out
    | Some (OpStatChange p) =>
      let (t', out) := stat_change_cb (fs_stat fs p) (retire k t) in
      Stepped t' out
    | Some (OpScan p from to n) =>
      match readLastLines uninit fs p from to n with
      | Some (_, a) =>
        let (t', out) := processFileChange_cb to a (retire k t) in
        Stepped t' out
      | None => Idle
      end
    end
  | Notify event filename =>
    match watcher t with
    | Some w =>
      if w_closed w then Idle else Stepped (listener event filename w t) []
    | None => Idle
    end
  | Close => close t
  end.

(** A sequence of turns; a turn that does not step leaves the session as it
    is. *)
Fixpoint run (ins : list input) (t : Taf) : Taf * list emitted :=
  match ins with
  | [] => (t, [])
  | i :: ins' =>
    match step i t with
    | Stepped t' out =>
      let (t'', out') := run ins' t' in (t'', out ++ out')
    | _ => run ins' t
    end
  end.

End Session.

(** ** A file system to run the code on *)

(** Node's [fs.read] on a file of content [c], for a descriptor that the
    scan has just opened: a position in the file gives its byte, a position
    at or past the end reads nothing, and a negative position means the
    descriptor's current position, which is still the start of the file. *)
Definition node_read (c : string) (p : Z) : result (option ascii) :=
  if p <? 0 then Ok (String.get 0 c) else Ok (String.get (Z.to_nat p) c).

Fixpoint find_file (files : list (string * string)) (p : string) (fd : Z)
  : option (Z * string) :=
  match files with
  | [] => None
  | (q, c) :: files' =>
    if String.eqb p q then Some (fd, c) else find_file files' p (fd + 1)
  end.

(** The file system holding [files]; descriptors count from 3. *)
Definition node_fs (files : list (string * string)) : Fs :=
  {| fs_stat := fun p =>
       match find_file files p 3 with
       | Some (_, c) => Ok (Z.of_nat (String.length c))
       | None => Err "ENOENT"
       end;
     fs_open := fun p =>
       match find_file files p 3 with
       | Some (fd, _) => Ok fd
       | None => Err "ENOENT"
       end;
     fs_read := fun fd p =>
       match nth_error files (Z.to_nat (fd - 3)) with
       | Some (_, c) => if fd <? 3 then Err "EBADF" else node_read c p
       | None => Err "EBADF"
       end |}.

(** [fs] with the read at position [at_pos] failing. *)
Definition failing_read (at_pos : Z) (fs : Fs) : Fs :=
  {| fs_stat := fs_stat fs;
     fs_open := fs_open fs;
     fs_read := fun fd p =>
       if p =? at_pos then Err "EIO" else fs_read fs fd p |}.

(** [fs] with [open] failing. *)
Definition failing_open (fs : Fs) : Fs :=
  {| fs_stat := fs_stat fs;
     fs_open := fun _ => Err "EMFILE";
     fs_read := fs_read fs |}.

(** [fs] with [stat] failing. *)
Definition failing_stat (fs : Fs) : Fs :=
  {| fs_stat := fun _ => Err "EACCES";
     fs_open := fs_open fs;
     fs_read := fs_read fs |}.

(** A model of [path.dirname] and [path.resolve] for absolute POSIX paths
    without [.] and [..] segments, used to run the code. *)
Fixpoint posix_dirname_aux (acc seg s : string) : string :=
  match s with
  | EmptyString => acc
  | String c s' =>
    if Ascii.eqb c "/"
    then posix_dirname_aux (acc ++ seg)%string (String c EmptyString) s'
    else posix_dirname_aux acc (seg ++ String c EmptyString)%string s'
  end.

Definition posix_dirname (s : string) : string :=
  match posix_dirname_aux EmptyString EmptyString s with
  | EmptyString => "/"
  | d => d
  end.

Definition posix_resolve (d f : string) : string :=
  if String.eqb d "/" then (d ++ f)%string else (d ++ "/" ++ f)%string.

Definition step' := step posix_dirname posix_resolve.
Definition run' := run posix_dirname posix_resolve.

(** ** Notions used to state the properties *)

(** The arguments the callback of a scan receives. *)
Definition scan_result (uninit : ascii) (fs : Fs) (p : string)
  (from to n : Z) : option cb_args :=
  option_map snd (readLastLines uninit fs p from to n).

(** The bytes of [m] are what [fs] reads through [fd] from position [lo]
    on. *)
Fixpoint holds (fs : Fs) (fd lo : Z) (m : string) : Prop :=
  match m with
  | EmptyString => True
  | String c m' => fs_read fs fd lo = Ok (Some c) /\ holds fs fd (lo + 1) m'
  end.

(** The variables of the scan once it has read the bytes of [m], last byte
    first. *)
Fixpoint after (m : string) (s : scan) : scan :=
  match m with
  | EmptyString => s
  | String c m' => on_byte (Some c) (dec_pos (after m' s))
  end.

(** The reads of the bytes of [m], which lies at [lo], last byte first. *)
Fixpoint reads (fd lo : Z) (m : string) : list fs_call :=
  match m with
  | EmptyString => []
  | String _ m' => reads fd (lo + 1) m' ++ [FsRead fd lo]
  end.

(** What follows the [if]/[else] of the callback of [fs.read]: another
    [readChar], or [fs.close] and [cb(null, res)]. *)
Definition finish (fuel : nat) (fs : Fs) (fd from n : Z) (s : scan)
  : option (list fs_call * cb_args) :=
  if again from n s then readChar fuel fs fd from n s
  else Some ([FsClose fd], CbOk (res s)).

Definition prepend (tr : list fs_call) (r : option (list fs_call * cb_args))
  : option (list fs_call * cb_args) :=
  match r with
  | Some (tr', a) => Some (tr ++ tr', a)
  | None => None
  end.

(** The counter never runs ahead of the lines collected by more than the
    first boundary. *)
Definition ctr_ok (s : scan) : Prop :=
  0 <= ctr s <= Z.of_nat (List.length (res s)) + 1.

(** Sessions that a program can have: built by the constructor, then driven
    by the event loop. *)
Definition reachable (dirname : string -> string)
  (resolve : string -> string -> string) (t : Taf) : Prop :=
  exists p n t0 ins,
    Taf_new p n = Some t0 /\ fst (run dirname resolve ins t0) = t.

(** Every scan in flight was issued from the present value of [_size], and
    for a range that is not reversed: no other scan has completed since. *)
Definition scans_in_step (t : Taf) : Prop :=
  forall p from to n,
    In (OpScan p from to n) (inflight t) -> from = _size t /\ from <= to.

(** The scan's call to [fs.open], or one of its calls to [fs.read], failed
    with [e]. *)
Definition scan_fails (uninit : ascii) (fs : Fs) (p : string)
  (from to n : Z) (e : error) : Prop :=
  fs_open fs p = Err e \/
  exists fd tr a q,
    fs_open fs p = Ok fd /\
    readLastLines uninit fs p from to n = Some (tr, a) /\
    In (FsRead fd q) tr /\ fs_read fs fd q = Err e.

(** The listener's [path] and the session's [path] are the same. *)
Definition paths_agree (t : Taf) : Prop :=
  forall w, watcher t = Some w -> w_path w = path t.

(** The operation in flight [o], issued for a growth of the file, fails
    with [e] on [fs]: its [fs.stat], or its scan's [fs.open] or
    [fs.read]. *)
Definition growth_failure (uninit : ascii) (fs : Fs) (o : op) (e : error)
  : Prop :=
  match o with
  | OpStatInit _ => False
  | OpStatChange p => fs_stat fs p = Err e
  | OpScan p from to n => scan_fails uninit fs p from to n e
  end.

(** ** Files and sessions to run the code on *)

Definition log : string := "/t.log".

(** The file system whose only file is [log], with the given lines and an
    unfinished last line [rest]. *)
Definition log_fs (ls : list string) (rest : string) : Fs :=
  node_fs [(log, (file_of_lines ls ++ rest)%string)].

(** The session [new Taf(log, n)] after the given turns. *)
Definition session (n : Z) (ins : list input) : option (Taf * list emitted) :=
  match Taf_new log (Some n) with
  | Some t0 => Some (run' ins t0)
  | None => None
  end.

(** The session [new Taf(log, n)] once its first scan has completed on the
    lines [ls]. *)
Definition started (n : Z) (ls : list string) : Taf :=
  match session n [Complete 0 (log_fs ls "") "x"%char;
                   Complete 0 (log_fs ls "") "x"%char] with
  | Some (t, _) => t
  | None => {| path := log; count := n; _size := 0; watcher := None;
               inflight := [];
               watches := 0%nat |}
  end.

(** The session [started n ls] once the file has the lines [ls'], the
    change was notified and the size obtained: the scan of the growth is
    in flight. *)
Definition growing (n : Z) (ls ls' : list string) : Taf :=
  fst (run' [Notify "change" (Some "t.log");
             Complete 0 (log_fs ls' "") "x"%char]
            (started n ls)).

(** The session [new Taf(log, n)] with its first scan in flight, on a file
    of lines [ls]. *)
Definition starting (n : Z) (ls : list string) : Taf :=
  match session n [Complete 0 (log_fs ls "") "x"%char] with
  | Some (t, _) => t
  | None => {| path := log; count := n; _size := 0; watcher := None;
               inflight := [];
               watches := 0%nat |}
  end.

(** The session after [close()]. *)
Definition closed (t : Taf) : Taf :=
  match step' Close t with
  | Stepped t' _ => t'
  | _ => t
  end.

(** ** Notions used for the calls and the text of a scan *)

(** [k] reads of one byte, downward from the position just below [to]. *)
Definition downward (fd to : Z) (k : nat) : list fs_call :=
  map (fun i => FsRead fd (to - 1 - Z.of_nat i)) (seq 0 k).

(** The call that ends a scan: [fs.close] before [cb(null, res)], nothing
    before [cb(err, null)]. *)
Definition closing (fd : Z) (a : cb_args) : list fs_call :=
  match a with
  | CbOk _ => [FsClose fd]
  | CbErr _ => []
  end.

(** Bytes below 128 only. *)
Fixpoint is_ascii7 (s : string) : bool :=
  match s with
  | EmptyString => true
  | String b s' => (N_of_ascii b <? 128)%N && is_ascii7 s'
  end.

(** The number of bytes of [s] at or above 128. *)
Fixpoint high_bytes (s : string) : nat :=
  match s with
  | EmptyString => O
  | String b s' =>
    ((if (N_of_ascii b <? 128)%N then 0 else 1) + high_bytes s')%nat
  end.

(** ** Notions used for the life of the session *)




(** A [rename] notification. *)
Definition is_rename (i : input) : bool :=
  match i with
  | Notify event _ => String.eqb event "rename"
  | _ => false
  end.

(** ** The arguments of the constructor *)

(** JavaScript numbers, as far as the constructor tells them apart: [NaN]
    and the integers (fractions and infinities are left out). *)
Inductive num : Type :=
| NaN
| Int (z : Z).

(** Primitive values. *)
Inductive prim : Type :=
| PUndefined
| PNull
| PBool (b : bool)
| PNum (x : num)
| PStr (s : string).

(** An options object, by the properties the constructor reads; a property
    that is absent is [PUndefined].  The values of the properties are
    primitive. *)
Record Options : Type := {
  o_n : prim;
  o_count : prim;
  o_encoding : prim;
  o_bufferSize : prim
}.

Inductive jsval : Type :=
| Prim (v : prim)
| Obj (o : Options).

Inductive thrown : Type :=
| AssertionError (message : string)
| TypeError.

(** What the constructor stores in [this]. *)
Record built : Type := {
  b_path : string;
  b_count : num;
  b_options : jsval;
  b_bufferSize : prim
}.

Inductive constructed : Type :=
| Throws (e : thrown)
| Built (b : built).

Definition truthy_num (x : num) : bool :=
  match x with
  | NaN => false
  | Int z => negb (z =? 0)
  end.

Definition truthy_prim (v : prim) : bool :=
  match v with
  | PUndefined | PNull => false
  | PBool b => b
  | PNum x => truthy_num x
  | PStr s => negb (String.eqb s EmptyString)
  end.

Definition truthy_val (v : jsval) : bool :=
  match v with
  | Prim v => truthy_prim v
  | Obj _ => true
  end.

(** [typeof] *)
Definition typeof (v : jsval) : string :=
  match v with
  | Prim PUndefined => "undefined"
  | Prim PNull => "object"
  | Prim (PBool _) => "boolean"
  | Prim (PNum _) => "number"
  | Prim (PStr _) => "string"
  | Obj _ => "object"
  end.

(** [x == y] on numbers. *)
Definition num_eq (x y : num) : bool :=
  match x, y with
  | Int a, Int b => a =? b
  | _, _ => false
  end.

(** [a || b] on numbers. *)
Definition or_num (a b : num) : num := if truthy_num a then a else b.

(** The options the constructor makes when it is given none. *)
Definition default_options : Options :=
  {| o_n := PUndefined; o_count := PUndefined; o_encoding := PUndefined;
     o_bufferSize := PNum (Int 1024) |}.

Section Constructor.

(** [Number(s)] for a string [s], and [parse] of the module [bytes]. *)
Variable str_to_num : string -> num.
Variable bytes : prim -> prim.

(** [Number(v)] *)
Definition ToNumber (v : prim) : num :=
  match v with
  | PUndefined => NaN
  | PNull => Int 0
  | PBool b => Int (if b then 1 else 0)
  | PNum x => x
  | PStr s => str_to_num s
  end.

Definition isNaN (v : prim) : bool :=
  match ToNumber v with
  | NaN => true
  | Int _ => false
  end.

(** [v == s] for a string [s], the comparison of [assert.equal]. *)
Definition loose_eq_str (v : prim) (s : string) : bool :=
  match v with
  | PUndefined | PNull => false
  | PStr s' => String.eqb s' s
  | PNum _ | PBool _ => num_eq (ToNumber v) (str_to_num s)
  end.

(** [Number(options.n) || Number(options.count) || 10] *)
Definition count_of_options (o : Options) : num :=
  or_num (or_num (ToNumber (o_n o)) (ToNumber (o_count o))) (Int 10).

(** The [else] branch of [if (!options)]: the check of [encoding], then
    the one of [bufferSize], which stores the parsed size in the object. *)
Definition check_encoding (o : Options) : option thrown :=
  match o_encoding o with
  | PUndefined => None
  | e => if loose_eq_str e "utf8" then None
         else Some (AssertionError "only UTF-8 encoding is supported")
  end.

Definition check_bufferSize (o : Options) : thrown + Options :=
  match o_bufferSize o with
  | PUndefined => inr o
  | v =>
    let bs := bytes v in
    if isNaN bs then inl (AssertionError "invalid bufferSize provided")
    else inr {| o_n := o_n o; o_count := o_count o;
                o_encoding := o_encoding o; o_bufferSize := bs |}
  end.

Definition check_options (o : Options) : thrown + Options :=
  match check_encoding o with
  | Some e => inl e
  | None => check_bufferSize o
  end.

(** The constructor from [if (!options)] on, with [n] settled. *)
Definition with_options (p : string) (n : num) (options : jsval)
  : constructed :=
  match options with
  | Obj o =>
    match check_options o with
    | inl e => Throws e
    | inr o' =>
      Built {| b_path := p; b_count := n; b_options := Obj o';
               b_bufferSize := o_bufferSize o' |}
    end
  | Prim v =>
    if truthy_prim v then
      (* a primitive has none of the properties *)
      Built {| b_path := p; b_count := n; b_options := Prim v;
               b_bufferSize := PUndefined |}
    else
      Built {| b_path := p; b_count := n; b_options := Obj default_options;
               b_bufferSize := o_bufferSize default_options |}
  end.

(** [new Taf(path, n, options)], up to the fields of [this]. *)
Definition Taf_construct (path n options : jsval) : constructed :=
  if negb (truthy_val path) then Throws (AssertionError "path is required")
  else
    match path with
    | Prim (PStr p) =>
      match n with
      | Prim PUndefined => with_options p (Int 10) options
      | Prim PNull => Throws TypeError (* [options.n] with [options] null *)
      | Obj o => with_options p (count_of_options o) (Obj o)
      | Prim (PNum x) => with_options p x options
      | Prim _ => Throws (AssertionError "n must be a number")
      end
    | _ => Throws (AssertionError "path must be a string")
    end.

(** [Taf(path, n, options)] without [new]: [return new Taf(path, n)]. *)
Definition Taf_call (path n options : jsval) : constructed :=
  Taf_construct path n (Prim PUndefined).

End Constructor.

(** The session that starts once the constructor has returned: [_size] is
    0 and the [fs.stat] of [process.nextTick] is in flight.  A [count] that
    is [NaN] has no place in [Taf]. *)
Definition session_of (b : built) : option Taf :=
  match b_count b with
  | Int z =>
    Some {| path := b_path b; count := z; _size := 0; watcher := None;
            inflight := [OpStatInit (b_path b)];
            watches := 0%nat |}
  | NaN => None
  end.

(** ** The setter of [exports.fs] *)

(** A value given to the setter, by what the setter looks at: its truth
    and the [typeof] of five of its properties. *)
Record candidate : Type := {
  c_truthy : bool;
  c_open : string;
  c_stat : string;
  c_read : string;
  c_watch : string;
  c_close : string
}.

Definition is_function (ty : string) : bool := String.eqb ty "function".

(** [exports.fs = value]: the error thrown, or nothing. *)
Definition fs_set_check (value : candidate) : option thrown :=
  if negb (c_truthy value)
  then Some (AssertionError "fs interface must be an object")
  else if negb (is_function (c_open value))
  then Some (AssertionError "fs interface must have an open method")
  else if negb (is_function (c_stat value))
  then Some (AssertionError "fs interface must have a stat method")
  else if negb (is_function (c_stat value))
  then Some (AssertionError "fs interface must have a stat method")
  else if negb (is_function (c_watch value))
  then Some (AssertionError "fs interface must have a watch method")
  else if negb (is_function (c_close value))
  then Some (AssertionError "fs interface must have a close method")
  else None.

(** The module's variable [fs] after [exports.fs = value], from [current]. *)
Definition fs_set (value current : candidate) : candidate :=
  match fs_set_check value with
  | Some _ => current
  | None => value
  end.

(** [exports.fs] *)
Definition fs_get (current : candidate) : candidate := current.

(** ** Conversions to run the constructor on *)

(** [Number(s)] for the strings of decimal digits (the empty string gives
    0), [NaN] for the others. *)
Fixpoint digits (s : string) (acc : Z) : num :=
  match s with
  | EmptyString => Int acc
  | String c s' =>
    let d := Z.of_N (N_of_ascii c) - 48 in
    if (0 <=? d) && (d <=? 9) then digits s' (10 * acc + d) else NaN
  end.

Definition decimal (s : string) : num := digits s 0.

(** [bytes.parse] for a number, which it returns, and for a string of
    decimal digits; [null] for a value of another type. *)
Definition bytes_decimal (v : prim) : prim :=
  match v with
  | PNum x => PNum x
  | PStr s => PNum (decimal s)
  | _ => PNull
  end.

(** ** Bytes outside ASCII to run the code on *)

(** The two bytes of the UTF-8 encoding of U+00E9, and the three bytes of
    the encoding of U+FFFD. *)
Definition e_acute : string :=
  String "195"%char (String "169"%char EmptyString).

Definition replacement : string :=
  String "239"%char (String "191"%char (String "189"%char EmptyString)).

(** * Properties *)

(** ** The loop of [readChar] *)

Lemma readChar_fuel_mono (fs : Fs) (fd from n : Z) :
  forall f f' s r,
    readChar f fs fd from n s = Some r -> (f <= f')%nat ->
    readChar f' fs fd from n s = Some r.
Proof.
  induction f as [|f IH]; intros f' s r H Hle; [discriminate|].
  destruct f' as [|f']; [lia|].
  simpl in *.
  destruct (fs_read fs fd (pos s - 1)) as [e|b]; [exact H|].
  destruct (again from n _); [|exact H].
  destruct (readChar f fs fd from n _) as [[tr a]|] eqn:E; [|discriminate].
  rewrite (IH f' _ _ E); [exact H|lia].
Qed.

Lemma on_byte_pos (r : option ascii) (s : scan) : pos (on_byte r s) = pos s.
Proof.
  unfold on_byte.
  destruct (Ascii.eqb _ nl); [destruct (negb _)|]; reflexivity.
Qed.

(** The loop ends: a scan of [from .. pos] makes at most [pos - from + 1]
    calls of [readChar]. *)
Lemma readChar_total (fs : Fs) (fd from n : Z) :
  forall f s,
    (Z.to_nat (pos s - from) < f)%nat ->
    exists r, readChar f fs fd from n s = Some r.
Proof.
  induction f as [|f IH]; intros s Hf; [lia|].
  simpl.
  destruct (fs_read fs fd (pos s - 1)) as [e|b]; [eauto|].
  destruct (again from n _) eqn:Ea; [|eauto].
  unfold again in Ea. apply andb_true_iff in Ea. destruct Ea as [Hp _].
  rewrite on_byte_pos in Hp. simpl in Hp. apply Z.leb_le in Hp.
  destruct (IH (on_byte b (dec_pos s))) as [[tr a] Hr].
  - rewrite on_byte_pos. simpl. lia.
  - rewrite Hr. eauto.
Qed.

(** [readLastLines] always calls [cb]. *)
Lemma readLastLines_total (u : ascii) (fs : Fs) (p : string) (from to n : Z) :
  exists tr a, readLastLines u fs p from to n = Some (tr, a).
Proof.
  unfold readLastLines.
  destruct (fs_open fs p) as [e|fd]; [eauto|].
  destruct (readChar_total fs fd from n (scan_fuel from to) (scan0 u to))
    as [[tr a] Hr].
  - unfold scan_fuel. simpl. lia.
  - rewrite Hr. eauto.
Qed.

Lemma on_byte_ctr (r : option ascii) (s : scan) :
  ctr_ok s -> ctr_ok (on_byte r s) /\ ctr s <= ctr (on_byte r s).
Proof.
  unfold ctr_ok, on_byte. intros H.
  destruct (Ascii.eqb _ nl); [destruct (ctr s =? 0) eqn:E|]; simpl.
  - lia.
  - apply Z.eqb_neq in E. lia.
  - lia.
Qed.

Lemma after_ctr (m : string) (s : scan) :
  ctr_ok s -> ctr_ok (after m s) /\ ctr s <= ctr (after m s).
Proof.
  intros H. induction m as [|c m IH]; simpl after; [split; [exact H|lia]|].
  destruct IH as [IH1 IH2].
  destruct (on_byte_ctr (Some c) (dec_pos (after m s)) IH1) as [H1 H2].
  split; [exact H1|].
  change (ctr (dec_pos (after m s))) with (ctr (after m s)) in H2. lia.
Qed.

Lemma after_pos (m : string) (s : scan) :
  pos (after m s) = pos s - Z.of_nat (String.length m).
Proof.
  induction m as [|c m IH]; simpl String.length; simpl after; [lia|].
  rewrite on_byte_pos. simpl. rewrite IH. lia.
Qed.

Lemma prepend_app (a b : list fs_call) r :
  prepend a (prepend b r) = prepend (a ++ b) r.
Proof.
  destruct r as [[tr x]|]; simpl; [|reflexivity].
  now rewrite app_assoc.
Qed.

(** One call of [readChar] whose read stores the byte [c]. *)
Lemma readChar_one (fs : Fs) (fd from n : Z) (f : nat) (s : scan) (c : ascii) :
  fs_read fs fd (pos s - 1) = Ok (Some c) ->
  readChar (S f) fs fd from n s =
  prepend [FsRead fd (pos s - 1)]
          (finish f fs fd from n (on_byte (Some c) (dec_pos s))).
Proof.
  intros H. simpl. rewrite H. unfold finish.
  destruct (again from n _); [|reflexivity].
  destruct (readChar f fs fd from n _) as [[tr a]|]; reflexivity.
Qed.

(** The loop reads the bytes of [m] one after the other as long as the
    counter stays below [n] and the position at or above [from]. *)
Lemma readChar_through (fs : Fs) (fd from n : Z) :
  forall m lo s f,
    m <> EmptyString ->
    holds fs fd lo m ->
    pos s = lo + Z.of_nat (String.length m) ->
    ctr_ok s ->
    from <= lo + 1 ->
    (forall c m', m = String c m' -> m' <> EmptyString ->
                  ctr (after m' s) < n) ->
    readChar (String.length m + f) fs fd from n s =
    prepend (reads fd lo m) (finish f fs fd from n (after m s)).
Proof.
  induction m as [|c m IH]; intros lo s f Hne Hh Hp Hok Hfrom Hctr;
    [congruence|].
  destruct Hh as [Hc Hh].
  destruct m as [|c' m'].
  - simpl String.length in *. simpl reads. simpl after.
    replace lo with (pos s - 1) in * by lia.
    now apply readChar_one.
  - assert (Hn : ctr (after (String c' m') s) < n)
      by (apply (Hctr c (String c' m')); [reflexivity|discriminate]).
    assert (HL : Z.of_nat (String.length (String c (String c' m'))) =
                 Z.of_nat (String.length (String c' m')) + 1)
      by (change (String.length (String c (String c' m')))
            with (S (String.length (String c' m'))); lia).
    rewrite HL in Hp.
    change (String.length (String c (String c' m')) + f)%nat
      with (S (String.length (String c' m') + f)).
    rewrite <- Nat.add_succ_r.
    rewrite (IH (lo + 1) s (S f)); try assumption; try discriminate.
    + unfold finish at 1.
      assert (Ha : again from n (after (String c' m') s) = true).
      { unfold again. rewrite after_pos. apply andb_true_intro. split.
        - apply Z.leb_le. lia.
        - apply Z.ltb_lt. exact Hn. }
      rewrite Ha.
      rewrite (readChar_one fs fd from n f _ c).
      * rewrite prepend_app. rewrite after_pos.
        replace (pos s - Z.of_nat (String.length (String c' m')) - 1)
          with lo by lia.
        reflexivity.
      * rewrite after_pos.
        replace (pos s - Z.of_nat (String.length (String c' m')) - 1)
          with lo by lia.
        exact Hc.
    + lia.
    + lia.
    + intros c0 m0 E Hm0. inversion E; subst c0 m0. clear E.
      destruct (after_ctr m' s Hok) as [Hok' _].
      destruct (on_byte_ctr (Some c') (dec_pos (after m' s)) Hok')
        as [_ Hle].
      change (ctr (dec_pos (after m' s))) with (ctr (after m' s)) in Hle.
      simpl after in Hn. simpl after. lia.
Qed.

(** ** Strings *)

Lemma append_assoc (a b c : string) :
  ((a ++ b) ++ c)%string = (a ++ (b ++ c))%string.
Proof. induction a as [|x a IH]; simpl; [reflexivity|now rewrite IH]. Qed.

Lemma append_empty_r (a : string) : (a ++ EmptyString)%string = a.
Proof. induction a as [|x a IH]; simpl; [reflexivity|now rewrite IH]. Qed.

Lemma append_length (a b : string) :
  String.length (a ++ b) = (String.length a + String.length b)%nat.
Proof. induction a as [|x a IH]; simpl; [reflexivity|now rewrite IH]. Qed.

Lemma holds_app (fs : Fs) (fd : Z) (a b : string) :
  forall lo,
    holds fs fd lo (a ++ b) <->
    holds fs fd lo a /\ holds fs fd (lo + Z.of_nat (String.length a)) b.
Proof.
  induction a as [|x a IH]; intros lo.
  - change (EmptyString ++ b)%string with b.
    change (String.length EmptyString) with O.
    replace (lo + Z.of_nat 0) with lo by lia. simpl. tauto.
  - change (String x a ++ b)%string with (String x (a ++ b)).
    change (String.length (String x a)) with (S (String.length a)).
    replace (lo + Z.of_nat (S (String.length a)))
      with (lo + 1 + Z.of_nat (String.length a)) by lia.
    simpl holds. rewrite IH. tauto.
Qed.

(** ** What the scan has collected after a run of bytes *)

Lemma after_app (a b : string) (s : scan) :
  after (a ++ b) s = after a (after b s).
Proof. induction a as [|x a IH]; simpl; [reflexivity|now rewrite IH]. Qed.

(** A byte other than the newline goes to the front of [cur]. *)
Lemma on_byte_other (c : ascii) (s : scan) :
  Ascii.eqb c nl = false ->
  ctr (on_byte (Some c) s) = ctr s /\
  res (on_byte (Some c) s) = res s /\
  cur (on_byte (Some c) s) = (buf_toString c ++ cur s)%string.
Proof. intros H. unfold on_byte. rewrite H. simpl. auto. Qed.

(** The first newline only counts. *)
Lemma on_byte_first_nl (s : scan) :
  ctr s = 0 ->
  ctr (on_byte (Some nl) s) = 1 /\
  res (on_byte (Some nl) s) = res s /\
  cur (on_byte (Some nl) s) = EmptyString.
Proof. intros H. unfold on_byte. rewrite H. simpl. auto. Qed.

(** Every later newline puts [cur] at the front of [res]. *)
Lemma on_byte_next_nl (s : scan) :
  ctr s <> 0 ->
  ctr (on_byte (Some nl) s) = Z.of_nat (S (List.length (res s))) /\
  res (on_byte (Some nl) s) = cur s :: res s /\
  cur (on_byte (Some nl) s) = EmptyString.
Proof.
  intros H. unfold on_byte. apply Z.eqb_neq in H. rewrite H. simpl. auto.
Qed.

(** A run of bytes without a newline only grows [cur]. *)
Lemma after_run (m : string) (s : scan) :
  no_nl m = true ->
  ctr (after m s) = ctr s /\
  res (after m s) = res s /\
  cur (after m s) = (bytewise m ++ cur s)%string.
Proof.
  induction m as [|c m IH]; intros H; simpl after; [simpl; auto|].
  simpl in H. apply andb_true_iff in H. destruct H as [Hc Hm].
  apply negb_true_iff in Hc.
  destruct (IH Hm) as (I1 & I2 & I3).
  destruct (on_byte_other c (dec_pos (after m s)) Hc) as (O1 & O2 & O3).
  rewrite O1, O2, O3. simpl ctr. simpl res. simpl cur.
  rewrite I1, I2, I3. simpl bytewise. rewrite append_assoc. auto.
Qed.

(** After the lines [ls] and the unfinished [tl_] behind them, read from the
    end: the first line is in [cur], the others are in [res]. *)
Lemma after_lines (tl_ : string) (s : scan) :
  no_nl tl_ = true -> ctr s = 0 -> res s = [] ->
  forall l ls,
    forallb no_nl (l :: ls) = true ->
    let s' := after (file_of_lines (l :: ls) ++ tl_) s in
    ctr s' = Z.max 1 (Z.of_nat (List.length ls)) /\
    res s' = map bytewise ls /\
    cur s' = bytewise l.
Proof.
  intros Ht Hc Hr l ls. revert l.
  induction ls as [|l2 ls IH]; intros l Hall; simpl in Hall;
    apply andb_true_iff in Hall; destruct Hall as [Hl Hls].
  - intros s'. subst s'.
    assert (E : (file_of_lines [l] ++ tl_)%string
                = (l ++ String nl tl_)%string)
      by (simpl; rewrite append_assoc; reflexivity).
    rewrite E, after_app.
    change (after (String nl tl_) s)
      with (on_byte (Some nl) (dec_pos (after tl_ s))).
    destruct (after_run tl_ s Ht) as (T1 & T2 & T3).
    destruct (on_byte_first_nl (dec_pos (after tl_ s))) as (N1 & N2 & N3);
      [simpl; lia|].
    destruct (after_run l (on_byte (Some nl) (dec_pos (after tl_ s))) Hl)
      as (L1 & L2 & L3).
    rewrite L1, L2, L3, N1, N2, N3. simpl res. rewrite T2, Hr.
    rewrite append_empty_r. simpl. auto.
  - intros s'. subst s'.
    assert (E : (file_of_lines (l :: l2 :: ls) ++ tl_)%string
                = (l ++ String nl (file_of_lines (l2 :: ls) ++ tl_))%string)
      by (change (file_of_lines (l :: l2 :: ls))
            with (l ++ String nl (file_of_lines (l2 :: ls)))%string;
          rewrite append_assoc; reflexivity).
    rewrite E, after_app.
    specialize (IH l2 Hls). cbv zeta in IH. destruct IH as (I1 & I2 & I3).
    set (s1 := after (file_of_lines (l2 :: ls) ++ tl_) s) in *.
    change (after (String nl (file_of_lines (l2 :: ls) ++ tl_)) s)
      with (on_byte (Some nl) (dec_pos s1)).
    destruct (on_byte_next_nl (dec_pos s1)) as (N1 & N2 & N3);
      [simpl; lia|].
    destruct (after_run l (on_byte (Some nl) (dec_pos s1)) Hl)
      as (L1 & L2 & L3).
    rewrite L1, L2, L3, N1, N2, N3. simpl res. simpl cur.
    rewrite I2, I3.
    rewrite append_empty_r. simpl List.length. rewrite length_map.
    split; [lia|]. split; reflexivity.
Qed.

(** ** Scans of a range made of lines *)

(** The scan of a range that holds, from the byte [c] at [lo] on, the lines
    [l :: ls] and an unfinished tail, when the loop runs down to [lo]: it
    reads every byte from the end down to [lo], closes the descriptor, and
    returns the lines after the first, and the first line too when [c] is a
    newline. *)
Lemma readLastLines_window (u : ascii) (fs : Fs) (p : string)
  (fd from n lo : Z) (c : ascii) (l : string) (ls : list string)
  (tl_ : string) :
  let body := (file_of_lines (l :: ls) ++ tl_)%string in
  fs_open fs p = Ok fd ->
  holds fs fd lo (String c body) ->
  forallb no_nl (l :: ls) = true ->
  no_nl tl_ = true ->
  from <= lo + 1 ->
  Z.max 1 (Z.of_nat (List.length ls)) < n ->
  (lo < from \/ (c = nl /\ n <= Z.of_nat (List.length ls) + 1)) ->
  readLastLines u fs p from (lo + 1 + Z.of_nat (String.length body)) n =
  Some (FsOpen p :: reads fd lo (String c body) ++ [FsClose fd],
        CbOk (if Ascii.eqb c nl then map bytewise (l :: ls)
              else map bytewise ls)).
Proof.
  intros body Hopen Hh Hall Ht Hfrom Hn Hend.
  set (to := lo + 1 + Z.of_nat (String.length body)).
  destruct (after_lines tl_ (scan0 u to) Ht eq_refl eq_refl l ls Hall)
    as (A1 & A2 & A3).
  fold body in A1, A2, A3.
  assert (Hthrough :
    readChar (String.length (String c body) + 0) fs fd from n (scan0 u to) =
    prepend (reads fd lo (String c body))
            (finish 0 fs fd from n (after (String c body) (scan0 u to)))).
  { apply readChar_through; try assumption.
    - discriminate.
    - simpl pos. unfold to.
      change (String.length (String c body)) with (S (String.length body)).
      lia.
    - unfold ctr_ok. simpl. lia.
    - intros c0 m' E _. inversion E; subst c0 m'. rewrite A1. exact Hn. }
  assert (Hres :
    res (after (String c body) (scan0 u to)) =
    (if Ascii.eqb c nl then map bytewise (l :: ls) else map bytewise ls) /\
    (c = nl -> ctr (after (String c body) (scan0 u to)) =
               Z.of_nat (List.length ls) + 1)).
  { simpl after.
    set (s1 := after body (scan0 u to)) in *.
    destruct (Ascii.eqb c nl) eqn:Ec.
    - apply Ascii.eqb_eq in Ec. subst c.
      destruct (on_byte_next_nl (dec_pos s1)) as (N1 & N2 & N3);
        [simpl; lia|].
      rewrite N1, N2. simpl. rewrite A2, A3, length_map.
      split; [reflexivity|intros _; lia].
    - destruct (on_byte_other c (dec_pos s1) Ec) as (O1 & O2 & O3).
      rewrite O2. simpl. split; [exact A2|].
      intros ->. discriminate. }
  destruct Hres as [Hres Hctr].
  assert (Hag : again from n (after (String c body) (scan0 u to)) = false).
  { unfold again. apply andb_false_iff.
    destruct Hend as [Hlo|[Hc Hcap]].
    - left. apply Z.leb_gt. rewrite after_pos. simpl pos. unfold to.
      change (String.length (String c body)) with (S (String.length body)).
      lia.
    - right. apply Z.ltb_ge. rewrite (Hctr Hc). lia. }
  unfold finish in Hthrough. rewrite Hag, Hres in Hthrough.
  simpl prepend in Hthrough.
  unfold readLastLines. rewrite Hopen.
  rewrite (readChar_fuel_mono fs fd from n _ (scan_fuel from to) _ _ Hthrough).
  - reflexivity.
  - unfold scan_fuel, to.
    change (String.length (String c body)) with (S (String.length body)).
    lia.
Qed.

(** ** Content before the first boundary *)

Lemma holds_last (fs : Fs) (fd : Z) (m : string) :
  forall lo,
    m <> EmptyString -> holds fs fd lo m ->
    exists b, fs_read fs fd (lo + Z.of_nat (String.length m) - 1)
              = Ok (Some b).
Proof.
  induction m as [|c m IH]; intros lo Hne Hh; [congruence|].
  destruct Hh as [Hc Hh].
  change (String.length (String c m)) with (S (String.length m)).
  destruct m as [|c' m'].
  - exists c. simpl. replace (lo + 1 - 1) with lo by lia. exact Hc.
  - destruct (IH (lo + 1)) as [b Hb]; [discriminate|exact Hh|].
    exists b.
    replace (lo + Z.of_nat (S (String.length (String c' m'))) - 1)
      with (lo + 1 + Z.of_nat (String.length (String c' m')) - 1) by lia.
    exact Hb.
Qed.

(** With no boundary crossed yet a byte adds no line. *)
Lemma on_byte_res_first (r : option ascii) (s : scan) :
  ctr s = 0 -> res (on_byte r s) = res s.
Proof.
  intros H. unfold on_byte. rewrite H. simpl.
  destruct (Ascii.eqb _ nl); reflexivity.
Qed.

(** With [n <= 0] the loop stops after its first read. *)
Lemma readChar_capped (fs : Fs) (fd from n : Z) (f : nat) (s : scan)
  (r : option ascii) :
  n <= 0 -> ctr_ok s ->
  fs_read fs fd (pos s - 1) = Ok r ->
  readChar (S f) fs fd from n s =
  Some ([FsRead fd (pos s - 1); FsClose fd],
        CbOk (res (on_byte r (dec_pos s)))).
Proof.
  intros Hn Hok Hr. simpl. rewrite Hr.
  assert (Ha : again from n (on_byte r (dec_pos s)) = false).
  { unfold again. apply andb_false_iff. right. apply Z.ltb_ge.
    destruct (on_byte_ctr r (dec_pos s)) as [[H0 _] _]; [exact Hok|lia]. }
  rewrite Ha. reflexivity.
Qed.

Lemma scan_result_prepend (tr : list fs_call) r :
  option_map snd (prepend tr r) = option_map snd r.
Proof. destruct r as [[tr' a]|]; reflexivity. Qed.

Lemma scan_result_unfold (u : ascii) (fs : Fs) (p : string) (fd from to n : Z) :
  fs_open fs p = Ok fd ->
  scan_result u fs p from to n =
  option_map snd (readChar (scan_fuel from to) fs fd from n (scan0 u to)).
Proof.
  intros H. unfold scan_result, readLastLines. rewrite H.
  destruct (readChar _ fs fd from n _) as [[tr a]|]; reflexivity.
Qed.

Lemma scan0_ok (u : ascii) (to : Z) : ctr_ok (scan0 u to).
Proof. unfold ctr_ok. simpl. lia. Qed.

(** The unfinished content at the end of the range has no part in the
    result: the scan returns what the scan of the range cut after the last
    newline returns. *)
Lemma tail_dropped (u u' : ascii) (fs : Fs) (p : string) (fd from n q : Z)
  (tl_ : string) :
  fs_open fs p = Ok fd ->
  holds fs fd q (String nl tl_) ->
  no_nl tl_ = true ->
  from - 1 <= q ->
  scan_result u fs p from (q + 1 + Z.of_nat (String.length tl_)) n =
  scan_result u' fs p from (q + 1) n.
Proof.
  intros Hopen Hh Ht Hq.
  rewrite !(scan_result_unfold _ fs p fd) by exact Hopen.
  set (to := q + 1 + Z.of_nat (String.length tl_)).
  destruct (Z.le_gt_cases n 0) as [Hn|Hn].
  - (* the loop stops after one read on both sides *)
    destruct (holds_last fs fd (String nl tl_) q) as [b Hb];
      [discriminate|exact Hh|].
    change (String.length (String nl tl_)) with (S (String.length tl_)) in Hb.
    unfold scan_fuel.
    rewrite (readChar_capped fs fd from n _ (scan0 u to) (Some b) Hn
               (scan0_ok u to));
      [|simpl pos; unfold to;
        replace (q + 1 + Z.of_nat (String.length tl_) - 1)
          with (q + Z.of_nat (S (String.length tl_)) - 1) by lia; exact Hb].
    destruct Hh as [Hnl _].
    rewrite (readChar_capped fs fd from n _ (scan0 u' (q + 1)) (Some nl) Hn
               (scan0_ok u' (q + 1)));
      [|simpl pos; replace (q + 1 - 1) with q by lia; exact Hnl].
    simpl option_map. rewrite !on_byte_res_first by reflexivity.
    reflexivity.
  - (* both sides cross the newline at [q] and go on from the same state *)
    set (F := Z.to_nat (q + 1 - from)).
    assert (E1 : scan_fuel from to = (String.length (String nl tl_) + F)%nat).
    { unfold scan_fuel, to, F.
      change (String.length (String nl tl_)) with (S (String.length tl_)).
      lia. }
    assert (E2 : scan_fuel from (q + 1)
                 = (String.length (String nl EmptyString) + F)%nat).
    { unfold scan_fuel, F. simpl String.length. lia. }
    destruct (after_run tl_ (scan0 u to) Ht) as (T1 & T2 & T3).
    rewrite E1, E2.
    rewrite (readChar_through fs fd from n (String nl tl_) q);
      [ | discriminate | exact Hh
        | simpl pos; unfold to;
          change (String.length (String nl tl_)) with (S (String.length tl_));
          lia
        | apply scan0_ok | lia
        | intros c m' E _; inversion E; subst; rewrite T1; simpl; lia ].
    rewrite (readChar_through fs fd from n (String nl EmptyString) q);
      [ | discriminate | destruct Hh as [Hnl _]; simpl; auto
        | simpl; lia | apply scan0_ok | lia
        | intros c m' E Hm; inversion E; subst; congruence ].
    rewrite !scan_result_prepend.
    assert (Es : after (String nl tl_) (scan0 u to)
                 = after (String nl EmptyString) (scan0 u' (q + 1))).
    { simpl after. unfold on_byte. simpl negb.
      replace (ctr (dec_pos (after tl_ (scan0 u to))) =? 0) with true
        by (simpl; rewrite T1; reflexivity).
      simpl. rewrite T1, T2, after_pos. simpl.
      unfold to. f_equal. lia. }
    rewrite Es. reflexivity.
Qed.

(** A range without a newline gives no line. *)
Lemma no_newline_no_line (u : ascii) (fs : Fs) (p : string) (fd from n : Z)
  (m : string) :
  fs_open fs p = Ok fd ->
  holds fs fd from m ->
  no_nl m = true ->
  (forall e, fs_read fs fd (from - 1) <> Err e) ->
  scan_result u fs p from (from + Z.of_nat (String.length m)) n
  = Some (CbOk []).
Proof.
  intros Hopen Hh Hm Hlow.
  rewrite (scan_result_unfold _ fs p fd) by exact Hopen.
  set (to := from + Z.of_nat (String.length m)).
  destruct (after_run m (scan0 u to) Hm) as (T1 & T2 & T3).
  assert (Hlast : forall f s, pos s = from -> ctr s = 0 -> res s = [] ->
            option_map snd (readChar (S f) fs fd from n s) = Some (CbOk [])).
  { intros f s Hp Hc Hr. simpl. rewrite Hp.
    destruct (fs_read fs fd (from - 1)) as [e|r] eqn:Er;
      [exfalso; exact (Hlow e eq_refl)|].
    assert (Ha : again from n (on_byte r (dec_pos s)) = false).
    { unfold again. apply andb_false_iff. left. apply Z.leb_gt.
      rewrite on_byte_pos. simpl. lia. }
    rewrite Ha. simpl. rewrite on_byte_res_first by exact Hc.
    simpl. rewrite Hr. reflexivity. }
  destruct m as [|c m'].
  - unfold scan_fuel, to. simpl String.length.
    replace (Z.to_nat (from + Z.of_nat 0 - from)) with O by lia.
    apply Hlast; [unfold to; simpl; lia|reflexivity|reflexivity].
  - destruct (Z.le_gt_cases n 0) as [Hn|Hn].
    + destruct (holds_last fs fd (String c m') from) as [b Hb];
        [discriminate|exact Hh|].
      unfold scan_fuel.
      rewrite (readChar_capped fs fd from n _ (scan0 u to) (Some b) Hn
                 (scan0_ok u to)); [|exact Hb].
      simpl option_map. rewrite on_byte_res_first by reflexivity.
      reflexivity.
    + assert (E : scan_fuel from to = (String.length (String c m') + 1)%nat)
        by (unfold scan_fuel, to; lia).
      rewrite E.
      rewrite (readChar_through fs fd from n (String c m') from);
        [ | discriminate | exact Hh | reflexivity | apply scan0_ok | lia | ].
      * rewrite scan_result_prepend. unfold finish.
        assert (Ha : again from n (after (String c m') (scan0 u to)) = true).
        { unfold again. apply andb_true_intro. split.
          - apply Z.leb_le. rewrite after_pos. simpl pos. unfold to. lia.
          - apply Z.ltb_lt. rewrite T1. simpl. lia. }
        rewrite Ha. apply Hlast.
        -- rewrite after_pos. simpl pos. unfold to. lia.
        -- rewrite T1. reflexivity.
        -- rewrite T2. reflexivity.
      * intros c0 m0 E0 _. inversion E0; subst c0 m0.
        simpl in Hm. apply andb_true_iff in Hm. destruct Hm as [_ Hm'].
        destruct (after_run m' (scan0 u to) Hm') as (R1 & _).
        rewrite R1. simpl. lia.
Qed.

(** ** C4 *)

(** C4. In every scan the content met before the first newline, going
    backward from [to], has no part in the result: the scan of a range that
    ends in an unfinished line returns what the scan of the range without
    that line returns; and the scan of a range without any newline, whose
    reads succeed, returns no line. *)
Theorem partial_content_never_emitted :
  (forall (u u' : ascii) (fs : Fs) (p : string) (fd from n q : Z)
          (tl_ : string),
      fs_open fs p = Ok fd ->
      holds fs fd q (String nl tl_) ->
      no_nl tl_ = true ->
      from - 1 <= q ->
      scan_result u fs p from (q + 1 + Z.of_nat (String.length tl_)) n =
      scan_result u' fs p from (q + 1) n) /\
  (forall (u : ascii) (fs : Fs) (p : string) (fd from n : Z) (m : string),
      fs_open fs p = Ok fd ->
      holds fs fd from m ->
      no_nl m = true ->
      (forall e, fs_read fs fd (from - 1) <> Err e) ->
      scan_result u fs p from (from + Z.of_nat (String.length m)) n
      = Some (CbOk [])).
Proof.
  split.
  - intros. eapply tail_dropped; eassumption.
  - intros. eapply no_newline_no_line; eassumption.
Qed.

Lemma partial_content_never_emitted_witness :
  scan_result "x" (log_fs ["a"] "bc") log 0 4 5 =
  scan_result "y" (log_fs ["a"] "bc") log 0 2 5 /\
  scan_result "x" (log_fs ["a"] "bc") log 2 4 5 = Some (CbOk []).
Proof.
  destruct partial_content_never_emitted as [H1 H2]. split.
  - apply (H1 "x"%char "y"%char (log_fs ["a"] "bc") log 3 0 5 1 "bc").
    + reflexivity.
    + simpl. repeat split; reflexivity.
    + reflexivity.
    + lia.
  - apply (H2 "x"%char (log_fs ["a"] "bc") log 3 2 5 "bc").
    + reflexivity.
    + simpl. repeat split; reflexivity.
    + reflexivity.
    + intros e. simpl. discriminate.
Defined.

(** ** Failures of a scan *)

(** A read that fails is the last call of the scan, and its error is the
    one [cb] receives. *)
Lemma readChar_failed_read (fs : Fs) (fd from n : Z) (e : error) (fd' q : Z) :
  forall f s tr a,
    readChar f fs fd from n s = Some (tr, a) ->
    In (FsRead fd' q) tr ->
    fs_read fs fd' q = Err e ->
    a = CbErr e.
Proof.
  induction f as [|f IH]; intros s tr a H Hin Hq; [discriminate|].
  simpl in H.
  destruct (fs_read fs fd (pos s - 1)) as [e0|r] eqn:Er.
  - inversion H; subst tr a. destruct Hin as [Hin|[]].
    inversion Hin; subst fd' q. congruence.
  - destruct (again from n _).
    + destruct (readChar f fs fd from n _) as [[tr' a']|] eqn:E;
        [|discriminate].
      inversion H; subst tr a. destruct Hin as [Hin|Hin].
      * inversion Hin; subst fd' q. congruence.
      * eapply IH; eassumption.
    + inversion H; subst tr a.
      destruct Hin as [Hin|[Hin|[]]]; [|discriminate].
      inversion Hin; subst fd' q. congruence.
Qed.

Lemma scan_fails_result (u : ascii) (fs : Fs) (p : string) (from to n : Z)
  (e : error) :
  scan_fails u fs p from to n e ->
  exists tr, readLastLines u fs p from to n = Some (tr, CbErr e).
Proof.
  intros [Hopen|(fd & tr & a & q & Hopen & Hr & Hin & Hq)].
  - unfold readLastLines. rewrite Hopen. eauto.
  - exists tr. rewrite Hr. f_equal. f_equal.
    unfold readLastLines in Hr. rewrite Hopen in Hr.
    destruct (readChar _ fs fd from n _) as [[tr' a']|] eqn:E;
      [|discriminate].
    inversion Hr; subst tr a.
    destruct Hin as [Hin|Hin]; [discriminate|].
    eapply readChar_failed_read; eassumption.
Qed.

(** On success the descriptor is closed, and that is the last call. *)
Lemma readChar_success_closes (fs : Fs) (fd from n : Z) :
  forall f s tr ls,
    readChar f fs fd from n s = Some (tr, CbOk ls) ->
    exists tr', tr = tr' ++ [FsClose fd].
Proof.
  induction f as [|f IH]; intros s tr ls H; [discriminate|].
  simpl in H.
  destruct (fs_read fs fd (pos s - 1)) as [e0|r]; [discriminate|].
  destruct (again from n _).
  - destruct (readChar f fs fd from n _) as [[tr' a']|] eqn:E;
      [|discriminate].
    inversion H; subst tr a'. destruct (IH _ _ _ E) as [tr'' ->].
    exists (FsRead fd (pos s - 1) :: tr''). reflexivity.
  - inversion H; subst tr ls. exists [FsRead fd (pos s - 1)]. reflexivity.
Qed.

(** When a read fails the descriptor is not closed. *)
Lemma readChar_failure_leaks (fs : Fs) (fd from n : Z) :
  forall f s tr e fd',
    readChar f fs fd from n s = Some (tr, CbErr e) ->
    ~ In (FsClose fd') tr.
Proof.
  induction f as [|f IH]; intros s tr e fd' H; [discriminate|].
  simpl in H.
  destruct (fs_read fs fd (pos s - 1)) as [e0|r].
  - inversion H; subst tr e0. intros [Hin|[]]. discriminate.
  - destruct (again from n _); [|discriminate].
    destruct (readChar f fs fd from n _) as [[tr' a']|] eqn:E;
      [|discriminate].
    inversion H; subst tr a'. intros [Hin|Hin]; [discriminate|].
    exact (IH _ _ _ _ E Hin).
Qed.

(** The same for [readLastLines]: the descriptor is closed exactly when
    the scan succeeds. *)
Lemma readLastLines_success_closes (u : ascii) (fs : Fs) (p : string)
  (fd from to n : Z) (tr : list fs_call) (ls : list string) :
  fs_open fs p = Ok fd ->
  readLastLines u fs p from to n = Some (tr, CbOk ls) ->
  exists tr', tr = tr' ++ [FsClose fd].
Proof.
  intros Ho H. unfold readLastLines in H. rewrite Ho in H.
  destruct (readChar _ fs fd from n _) as [[tr0 a]|] eqn:E; [|discriminate].
  inversion H; subst tr a.
  destruct (readChar_success_closes fs fd from n _ _ _ _ E) as [tr' ->].
  exists (FsOpen p :: tr'). reflexivity.
Qed.

Lemma readLastLines_failure_leaks (u : ascii) (fs : Fs) (p : string)
  (from to n : Z) (tr : list fs_call) (e : error) (fd : Z) :
  readLastLines u fs p from to n = Some (tr, CbErr e) ->
  ~ In (FsClose fd) tr.
Proof.
  intros H. unfold readLastLines in H.
  destruct (fs_open fs p) as [e0|fd0].
  - inversion H; subst tr e0. intros [Hin|[]]. discriminate.
  - destruct (readChar _ fs fd0 from n _) as [[tr0 a]|] eqn:E;
      [|discriminate].
    inversion H; subst tr a. intros [Hin|Hin]; [discriminate|].
    exact (readChar_failure_leaks fs fd0 from n _ _ _ _ fd E Hin).
Qed.

(** ** Turns of the session *)

Lemma nth_error_snoc {A : Type} (l : list A) (a : A) :
  nth_error (l ++ [a]) (List.length l) = Some a.
Proof. induction l as [|x l IH]; simpl; [reflexivity|exact IH]. Qed.

Lemma remove_nth_snoc {A : Type} (l : list A) (a : A) :
  remove_nth (List.length l) (l ++ [a]) = l.
Proof. induction l as [|x l IH]; simpl; [reflexivity|now rewrite IH]. Qed.


Section SessionProperties.

Variable dirname : string -> string.
Variable resolve : string -> string -> string.

Lemma step_paths_agree (i : input) (t t' : Taf) (out : list emitted) :
  paths_agree t -> step dirname resolve i t = Stepped t' out ->
  paths_agree t'.
Proof.
  unfold paths_agree. intros Hinv H w' Hw'.
  destruct i as [k fs u|ev fn|]; simpl in H.
  - destruct (nth_error (inflight t) k) as [[p|p|p from to n]|];
      [| | |discriminate].
    + destruct (fs_stat fs p) as [e|sz]; simpl in H;
        inversion H; subst t' out; simpl in Hw' |- *.
      * auto.
      * inversion Hw'; subst w'. reflexivity.
    + destruct (fs_stat fs p) as [e|sz]; simpl in H.
      * inversion H; subst t' out. simpl in Hw' |- *. auto.
      * destruct (_size t <? sz); inversion H; subst t' out;
          simpl in Hw' |- *; auto.
    + destruct (readLastLines u fs p from to n) as [[tr [e|ls]]|];
        simpl in H; [| |discriminate];
        inversion H; subst t' out; simpl in Hw' |- *; auto.
  - destruct (watcher t) as [w|] eqn:Ew; [|discriminate].
    destruct (w_closed w); [discriminate|].
    inversion H; subst t' out. clear H. unfold listener in Hw' |- *.
    destruct (String.eqb ev "change").
    + simpl in Hw' |- *. rewrite Ew in Hw'. auto.
    + destruct (String.eqb ev "rename");
        [|rewrite Ew in Hw'; auto].
      destruct (truthy fn); [|rewrite Ew in Hw'; auto].
      simpl in Hw' |- *. inversion Hw'; subst w'. reflexivity.
  - unfold close in H. destruct (watcher t) as [w|] eqn:Ew; [|discriminate].
    inversion H; subst t' out. simpl in Hw' |- *. inversion Hw'; subst w'.
    simpl. auto.
Qed.

Lemma run_paths_agree (ins : list input) :
  forall t, paths_agree t -> paths_agree (fst (run dirname resolve ins t)).
Proof.
  induction ins as [|i ins IH]; intros t Hinv; simpl; [exact Hinv|].
  destruct (step dirname resolve i t) as [t' out| |] eqn:E;
    try (apply IH; exact Hinv).
  specialize (IH t' (step_paths_agree i t t' out Hinv E)).
  destruct (run dirname resolve ins t') as [t'' out']. exact IH.
Qed.

Lemma reachable_paths_agree (t : Taf) :
  reachable dirname resolve t -> paths_agree t.
Proof.
  intros (p & n & t0 & ins & Hnew & Hrun). subst t.
  apply run_paths_agree. unfold Taf_new in Hnew.
  destruct (String.eqb p EmptyString); [discriminate|].
  inversion Hnew; subst t0. intros w Hw. discriminate.
Qed.

End SessionProperties.

Section Turns.

Variable dirname : string -> string.
Variable resolve : string -> string -> string.

(** The callback of an operation in flight always runs. *)
Lemma complete_runs (t : Taf) (k : nat) (fs : Fs) (u : ascii) (o : op) :
  nth_error (inflight t) k = Some o ->
  exists t' out, step dirname resolve (Complete k fs u) t = Stepped t' out.
Proof.
  intros Hk. simpl. rewrite Hk. destruct o as [p|p|p from to n].
  - destruct (stat_init_cb (fs_stat fs p) (retire k t)) as [t' out]. eauto.
  - destruct (stat_change_cb (fs_stat fs p) (retire k t)) as [t' out]. eauto.
  - destruct (readLastLines_total u fs p from to n) as (tr & a & Hr).
    rewrite Hr.
    destruct (processFileChange_cb to a (retire k t)) as [t' out]. eauto.
Qed.

(** A [change] notification issues the listener's [fs.stat]. *)
Lemma step_notify_change (t : Taf) (w : Watcher) (fn : option string) :
  watcher t = Some w -> w_closed w = false ->
  step dirname resolve (Notify "change" fn) t =
  Stepped (issue (OpStatChange (w_path w)) t) [].
Proof. intros Hw Hc. simpl. rewrite Hw, Hc. reflexivity. Qed.

(** The callback of the listener's [fs.stat], the operation issued last,
    when the file has grown. *)
Lemma step_stat_grow (t : Taf) (fs : Fs) (u : ascii) (p : string) (sz : Z) :
  fs_stat fs p = Ok sz -> _size t < sz ->
  step dirname resolve (Complete (List.length (inflight t)) fs u)
       (issue (OpStatChange p) t) =
  Stepped (processFileChange sz t) [].
Proof.
  intros Hs Hlt. simpl. rewrite nth_error_snoc, Hs.
  unfold retire. simpl. rewrite remove_nth_snoc.
  unfold stat_change_cb. simpl. apply Z.ltb_lt in Hlt. rewrite Hlt.
  reflexivity.
Qed.

(** The callback of a scan, the operation issued last, when the scan
    succeeds. *)
Lemma step_scan_done (t : Taf) (fs : Fs) (u : ascii) (p : string)
  (from to n : Z) (tr : list fs_call) (lines : list string) :
  readLastLines u fs p from to n = Some (tr, CbOk lines) ->
  step dirname resolve (Complete (List.length (inflight t)) fs u)
       (issue (OpScan p from to n) t) =
  Stepped {| path := path t; count := count t; _size := to;
             watcher := watcher t; inflight := inflight t;
             watches := watches t |}
          (map Line lines).
Proof.
  intros Hr. simpl. rewrite nth_error_snoc, Hr.
  unfold retire. simpl. rewrite remove_nth_snoc. reflexivity.
Qed.

(** A growth of the file, from the notification to the lines. *)
Lemma run_growth (t : Taf) (w : Watcher) (fn : option string)
  (fs1 fs2 : Fs) (u1 u2 : ascii) (sz : Z) (tr : list fs_call)
  (lines : list string) :
  watcher t = Some w -> w_closed w = false ->
  fs_stat fs1 (w_path w) = Ok sz -> _size t < sz ->
  readLastLines u2 fs2 (path t) (_size t) sz (count t)
  = Some (tr, CbOk lines) ->
  run dirname resolve
      [Notify "change" fn;
       Complete (List.length (inflight t)) fs1 u1;
       Complete (List.length (inflight t)) fs2 u2] t =
  ({| path := path t; count := count t; _size := sz;
      watcher := watcher t; inflight := inflight t;
      watches := watches t |},
   map Line lines).
Proof.
  intros Hw Hc Hs Hlt Hr.
  cbn [run]. rewrite (step_notify_change t w fn Hw Hc).
  rewrite (step_stat_grow t fs1 u1 (w_path w) sz Hs Hlt).
  unfold processFileChange.
  rewrite (step_scan_done t fs2 u2 _ _ _ _ tr lines Hr).
  simpl. rewrite app_nil_r. reflexivity.
Qed.

(** C6. When the [fs.stat] of a growth, or the [fs.open] or an [fs.read]
    of its scan, fails, exactly one [error] is emitted and no [line]; the
    session is as before but for the operation, which is over: [_size] is
    unchanged; and a later growth is then served from that [_size]: its
    lines are emitted and [_size] becomes the new size. *)
Theorem failure_leaves_session_unchanged (t : Taf) (k : nat) (fs : Fs)
  (u : ascii) (o : op) (e : error) :
  nth_error (inflight t) k = Some o ->
  growth_failure u fs o e ->
  step dirname resolve (Complete k fs u) t = Stepped (retire k t) [Error e] /\
  _size (retire k t) = _size t /\
  forall (w : Watcher) (fn : option string) (fs1 fs2 : Fs) (u1 u2 : ascii)
         (sz : Z) (tr : list fs_call) (lines : list string),
    watcher t = Some w -> w_closed w = false ->
    fs_stat fs1 (w_path w) = Ok sz -> _size t < sz ->
    readLastLines u2 fs2 (path t) (_size t) sz (count t)
    = Some (tr, CbOk lines) ->
    run dirname resolve
        [Notify "change" fn;
         Complete (List.length (inflight (retire k t))) fs1 u1;
         Complete (List.length (inflight (retire k t))) fs2 u2]
        (retire k t) =
    ({| path := path t; count := count t; _size := sz;
        watcher := watcher t; inflight := inflight (retire k t);
        watches := watches t |},
     map Line lines).
Proof.
  intros Hk Hfail. split; [|split; [reflexivity|]].
  - simpl. rewrite Hk. destruct o as [p|p|p from to n]; simpl in Hfail.
    + contradiction.
    + rewrite Hfail. reflexivity.
    + destruct (scan_fails_result u fs p from to n e Hfail) as [tr Hr].
      rewrite Hr. reflexivity.
  - intros w fn fs1 fs2 u1 u2 sz tr lines Hw Hc Hs Hlt Hr.
    exact (run_growth (retire k t) w fn fs1 fs2 u1 u2 sz tr lines
             Hw Hc Hs Hlt Hr).
Qed.

(** C9. A [rename] notification with a file name makes the session's path
    the name resolved in the directory of the present path; nothing is
    emitted and [_size] is unchanged; the subscription is neither torn down
    nor made again: the watcher is the one that was there (the same
    [w_id]), it is not closed, and no call of [fs.watch] is made ([watches]
    is unchanged); the operations in flight are unchanged; a growth
    notified afterwards is served from the new path, by the same watcher:
    its [fs.stat] and its scan are on that path. *)
Theorem rename_follows (t : Taf) (w : Watcher) (f : string) :
  reachable dirname resolve t ->
  watcher t = Some w -> w_closed w = false ->
  f <> EmptyString ->
  let p' := resolve (dirname (path t)) f in
  let t' := {| path := p'; count := count t; _size := _size t;
               watcher := Some {| w_path := p'; w_closed := false;
                                  w_id := w_id w |};
               inflight := inflight t;
               watches := watches t |} in
  step dirname resolve (Notify "rename" (Some f)) t = Stepped t' [] /\
  forall (fn : option string) (fs1 fs2 : Fs) (u1 u2 : ascii) (sz : Z)
         (tr : list fs_call) (lines : list string),
    fs_stat fs1 p' = Ok sz -> _size t < sz ->
    readLastLines u2 fs2 p' (_size t) sz (count t) = Some (tr, CbOk lines) ->
    run dirname resolve
        [Notify "change" fn;
         Complete (List.length (inflight t)) fs1 u1;
         Complete (List.length (inflight t)) fs2 u2] t' =
    ({| path := p'; count := count t; _size := sz;
        watcher := Some {| w_path := p'; w_closed := false;
                           w_id := w_id w |};
        inflight := inflight t;
        watches := watches t |},
     map Line lines).
Proof.
  intros Hreach Hw Hc Hf p' t'. split.
  - simpl. rewrite Hw, Hc. unfold listener. simpl String.eqb.
    unfold truthy. apply String.eqb_neq in Hf. rewrite Hf.
    rewrite (reachable_paths_agree dirname resolve t Hreach w Hw), Hc.
    reflexivity.
  - intros fn fs1 fs2 u1 u2 sz tr lines Hs Hlt Hr.
    exact (run_growth t' {| w_path := p'; w_closed := false;
                            w_id := w_id w |} fn
             fs1 fs2 u1 u2 sz tr lines eq_refl eq_refl Hs Hlt Hr).
Qed.



(** C5, as the code has it. A turn leaves [_size] as it is unless it is
    the callback of a scan that succeeds: the callbacks of [fs.stat], the
    callback of a scan that fails, the notifications, [rename] among them,
    and [close()] do not change it.  The callback of a scan that succeeds
    emits the lines and sets [_size] to the size seen when the scan was
    issued, a strict increase when [_size] is still the offset the scan was
    issued from and the scan is that of a growth.  A size not above [_size]
    issues no scan and emits nothing; a size above it issues the scan from
    [_size] to that size.  As long as every scan in flight was issued from
    the present [_size], no turn lowers [_size]. *)
Theorem lastOffset_grows_in_step (t : Taf) :
  (forall i t' out,
      step dirname resolve i t = Stepped t' out ->
      _size t' = _size t \/
      exists k fs u p from to n tr lines,
        i = Complete k fs u /\
        nth_error (inflight t) k = Some (OpScan p from to n) /\
        readLastLines u fs p from to n = Some (tr, CbOk lines) /\
        out = map Line lines /\ _size t' = to) /\
  (forall k fs u p from to n tr lines,
      nth_error (inflight t) k = Some (OpScan p from to n) ->
      readLastLines u fs p from to n = Some (tr, CbOk lines) ->
      exists t',
        step dirname resolve (Complete k fs u) t = Stepped t' (map Line lines)
        /\ _size t' = to
        /\ (from = _size t -> from < to -> _size t < _size t')) /\
  (forall k fs u p sz,
      nth_error (inflight t) k = Some (OpStatChange p) ->
      fs_stat fs p = Ok sz -> sz <= _size t ->
      step dirname resolve (Complete k fs u) t = Stepped (retire k t) []) /\
  (forall k fs u p sz,
      nth_error (inflight t) k = Some (OpStatChange p) ->
      fs_stat fs p = Ok sz -> _size t < sz ->
      step dirname resolve (Complete k fs u) t =
      Stepped (issue (OpScan (path t) (_size t) sz (count t)) (retire k t))
              []) /\
  (scans_in_step t ->
   forall i t' out,
     step dirname resolve i t = Stepped t' out -> _size t <= _size t').
Proof.
  assert (Hany : forall i t' out,
      step dirname resolve i t = Stepped t' out ->
      _size t' = _size t \/
      exists k fs u p from to n tr lines,
        i = Complete k fs u /\
        nth_error (inflight t) k = Some (OpScan p from to n) /\
        readLastLines u fs p from to n = Some (tr, CbOk lines) /\
        out = map Line lines /\ _size t' = to).
  { intros i t' out H. destruct i as [k fs u|ev fn|]; simpl in H.
    - destruct (nth_error (inflight t) k) as [[p|p|p from to n]|] eqn:Ek;
        [| | |discriminate].
      + destruct (fs_stat fs p) as [e|sz]; simpl in H;
          inversion H; subst t' out; left; reflexivity.
      + destruct (fs_stat fs p) as [e|sz]; simpl in H;
          [|destruct (_size t <? sz)];
          inversion H; subst t' out; left; reflexivity.
      + destruct (readLastLines u fs p from to n) as [[tr [e|ls]]|] eqn:Er;
          simpl in H; [| |discriminate]; inversion H; subst t' out.
        * left. reflexivity.
        * right. exists k, fs, u, p, from, to, n, tr, ls. auto.
    - destruct (watcher t) as [w|]; [|discriminate].
      destruct (w_closed w); [discriminate|].
      inversion H; subst t' out. left. unfold listener.
      destruct (String.eqb ev "change"); [reflexivity|].
      destruct (String.eqb ev "rename"); [|reflexivity].
      destruct (truthy fn); reflexivity.
    - unfold close in H. destruct (watcher t) as [w|]; [|discriminate].
      inversion H; subst t' out. left. reflexivity. }
  split; [exact Hany|]. split; [|split; [|split]].
  - intros k fs u p from to n tr lines Hk Hr.
    eexists. simpl. rewrite Hk, Hr. simpl.
    split; [reflexivity|]. simpl. split; [reflexivity|]. intros; lia.
  - intros k fs u p sz Hk Hs Hle. simpl. rewrite Hk, Hs. simpl.
    apply Z.ltb_ge in Hle. rewrite Hle. reflexivity.
  - intros k fs u p sz Hk Hs Hlt. simpl. rewrite Hk, Hs. simpl.
    apply Z.ltb_lt in Hlt. rewrite Hlt. reflexivity.
  - intros Hstep i t' out H.
    destruct (Hany i t' out H)
      as [He|(k & fs & u & p & from & to & n & tr & ls & _ & Hk & _ & _ & Ht)].
    + lia.
    + destruct (Hstep p from to n (nth_error_In _ _ Hk)) as [Hf Hle]. lia.
Qed.

End Turns.

(** ** Runs of the session *)

Lemma session_reachable (n : Z) (ins : list input) (t : Taf)
  (out : list emitted) :
  session n ins = Some (t, out) -> reachable posix_dirname posix_resolve t.
Proof.
  unfold session. intros H. exists log, (Some n).
  destruct (Taf_new log (Some n)) as [t0|] eqn:E; [|discriminate].
  exists t0, ins. split; [reflexivity|].
  inversion H as [H']. change (fst (run' ins t0) = t). now rewrite H'.
Qed.

Lemma failure_leaves_session_unchanged_witness :
  step' (Complete 0 (failing_read 3 (log_fs ["a"; "b"] "")) "x")
        (growing 2 ["a"] ["a"; "b"]) =
  Stepped (retire 0 (growing 2 ["a"] ["a"; "b"])) [Error "EIO"] /\
  run' [Notify "change" None;
        Complete 0 (log_fs ["a"; "b"] "") "x";
        Complete 0 (log_fs ["a"; "b"] "") "x"]
       (retire 0 (growing 2 ["a"] ["a"; "b"])) =
  ({| path := log; count := 2; _size := 4;
      watcher := Some {| w_path := log; w_closed := false; w_id := 0%nat |};
      inflight := [];
      watches := 1%nat |},
   [Line "b"]).
Proof.
  destruct (failure_leaves_session_unchanged posix_dirname posix_resolve
              (growing 2 ["a"] ["a"; "b"]) 0
              (failing_read 3 (log_fs ["a"; "b"] "")) "x"
              (OpScan log 2 4 2) "EIO") as (H1 & _ & H3).
  - reflexivity.
  - right. exists 3, [FsOpen log; FsRead 3 3], (CbErr "EIO"), 3.
    repeat split; try reflexivity. right. left. reflexivity.
  - split; [exact H1|].
    apply (H3 {| w_path := log; w_closed := false; w_id := 0%nat |} None
              (log_fs ["a"; "b"] "") (log_fs ["a"; "b"] "") "x"%char "x"%char
              4 [FsOpen log; FsRead 3 3; FsRead 3 2; FsRead 3 1; FsClose 3]
              ["b"]);
      try reflexivity.
Defined.

Lemma rename_follows_witness :
  step' (Notify "rename" (Some "u.log")) (started 2 ["a"]) =
  Stepped {| path := "/u.log"; count := 2; _size := 2;
             watcher := Some {| w_path := "/u.log"; w_closed := false;
                                w_id := 0%nat |};
             inflight := [];
             watches := 1%nat |} [] /\
  run' [Notify "change" (Some "u.log");
        Complete 0 (node_fs [("/u.log", file_of_lines ["a"; "b"])]) "x";
        Complete 0 (node_fs [("/u.log", file_of_lines ["a"; "b"])]) "x"]
       {| path := "/u.log"; count := 2; _size := 2;
          watcher := Some {| w_path := "/u.log"; w_closed := false;
                             w_id := 0%nat |};
          inflight := [];
          watches := 1%nat |} =
  ({| path := "/u.log"; count := 2; _size := 4;
      watcher := Some {| w_path := "/u.log"; w_closed := false;
                         w_id := 0%nat |};
      inflight := [];
      watches := 1%nat |},
   [Line "b"]).
Proof.
  destruct (rename_follows posix_dirname posix_resolve (started 2 ["a"])
              {| w_path := log; w_closed := false; w_id := 0%nat |} "u.log")
    as (H1 & H2).
  - apply (session_reachable 2
             [Complete 0 (log_fs ["a"] "") "x"%char;
              Complete 0 (log_fs ["a"] "") "x"%char]
             _ []).
    reflexivity.
  - reflexivity.
  - reflexivity.
  - discriminate.
  - split; [exact H1|].
    apply (H2 (Some "u.log")
              (node_fs [("/u.log", file_of_lines ["a"; "b"])])
              (node_fs [("/u.log", file_of_lines ["a"; "b"])])
              "x"%char "x"%char 4
              [FsOpen "/u.log"; FsRead 3 3; FsRead 3 2; FsRead 3 1;
               FsClose 3]
              ["b"]);
      reflexivity.
Defined.



(** C5, counterexample. The first scan, of the range 0 to 4, is in flight
    when the file grows to 6 bytes and the scan of the range 0 to 6 is
    issued; the second scan completes first and sets [_size] to 6, then the
    first completes and sets it to 4.  And the other way round: the first
    scan is of a file of 6 bytes, the file is cut to 4 bytes and notified
    while it is in flight; the scans complete in the order they were issued
    and [_size] goes from 6 to 4. *)
Lemma lastOffset_decreases :
  (let t := fst (run' [Notify "change" None;
                       Complete 1 (log_fs ["a"; "b"; "c"] "") "x";
                       Complete 1 (log_fs ["a"; "b"; "c"] "") "x"]
                      (starting 2 ["a"; "b"])) in
   reachable posix_dirname posix_resolve t /\
   _size t = 6 /\
   exists t' out,
     step' (Complete 0 (log_fs ["a"; "b"; "c"] "") "x") t = Stepped t' out /\
     _size t' = 4) /\
  (let t := fst (run' [Notify "change" None;
                       Complete 1 (log_fs ["a"; "b"] "") "x";
                       Complete 0 (log_fs ["a"; "b"; "c"] "") "x"]
                      (starting 2 ["a"; "b"; "c"])) in
   reachable posix_dirname posix_resolve t /\
   _size t = 6 /\
   exists t' out,
     step' (Complete 0 (log_fs ["a"; "b"] "") "x") t = Stepped t' out /\
     _size t' = 4).
Proof.
  split.
  - split; [|split; [reflexivity|]].
    + apply (session_reachable 2
               [Complete 0 (log_fs ["a"; "b"] "") "x"%char;
                Notify "change" None;
                Complete 1 (log_fs ["a"; "b"; "c"] "") "x"%char;
                Complete 1 (log_fs ["a"; "b"; "c"] "") "x"%char]
               _ [Line "b"; Line "c"]).
      reflexivity.
    + eexists. eexists. split; reflexivity.
  - split; [|split; [reflexivity|]].
    + apply (session_reachable 2
               [Complete 0 (log_fs ["a"; "b"; "c"] "") "x"%char;
                Notify "change" None;
                Complete 1 (log_fs ["a"; "b"] "") "x"%char;
                Complete 0 (log_fs ["a"; "b"; "c"] "") "x"%char]
               _ [Line "b"; Line "c"]).
      reflexivity.
    + eexists. eexists. split; reflexivity.
Qed.

Lemma lastOffset_grows_in_step_witness :
  (exists t',
     step' (Complete 0 (log_fs ["a"; "b"] "") "x") (growing 2 ["a"] ["a"; "b"])
     = Stepped t' [Line "b"] /\
     _size t' = 4 /\ _size (growing 2 ["a"] ["a"; "b"]) < _size t') /\
  step' (Complete 0 (log_fs ["a"] "") "x")
        (fst (run' [Notify "change" None] (started 2 ["a"])))
  = Stepped (started 2 ["a"]) [] /\
  step' (Complete 0 (log_fs ["a"; "b"] "") "x")
        (fst (run' [Notify "change" None] (started 2 ["a"])))
  = Stepped (growing 2 ["a"] ["a"; "b"]) [] /\
  _size (growing 2 ["a"] ["a"; "b"])
  <= _size (closed (growing 2 ["a"] ["a"; "b"])).
Proof.
  destruct (lastOffset_grows_in_step posix_dirname posix_resolve
              (growing 2 ["a"] ["a"; "b"])) as (_ & H2 & _ & _ & H5).
  destruct (lastOffset_grows_in_step posix_dirname posix_resolve
              (fst (run' [Notify "change" None] (started 2 ["a"]))))
    as (_ & _ & H3 & H4 & _).
  split; [|split; [|split]].
  - destruct (H2 0%nat (log_fs ["a"; "b"] "") "x"%char log 2 4 2
                [FsOpen log; FsRead 3 3; FsRead 3 2; FsRead 3 1; FsClose 3]
                ["b"] eq_refl eq_refl) as (t' & Hs & Hsz & Hlt).
    exists t'. split; [exact Hs|]. split; [exact Hsz|].
    apply Hlt; [reflexivity|simpl; lia].
  - apply (H3 0%nat (log_fs ["a"] "") "x"%char log 2);
      [reflexivity|reflexivity|simpl; lia].
  - apply (H4 0%nat (log_fs ["a"; "b"] "") "x"%char log 4);
      [reflexivity|reflexivity|simpl; lia].
  - apply (H5 (fun p from to n H =>
                 match H with
                 | or_introl E =>
                   match E in (_ = o)
                         return (match o with
                                 | OpScan _ f t' _ => f = 2 /\ f <= t'
                                 | _ => True
                                 end)
                   with eq_refl => conj eq_refl (Zle_bool_imp_le 2 4 eq_refl)
                   end
                 | or_intror F => match F with end
                 end)
              Close (closed (growing 2 ["a"] ["a"; "b"])) []).
    reflexivity.
Defined.

(** ** The byte below the range *)

Lemma reads_In_lo (fd lo : Z) (c : ascii) (m : string) :
  In (FsRead fd lo) (reads fd lo (String c m)).
Proof. simpl. apply in_or_app. right. left. reflexivity. Qed.

(** C10, counterexample. The scan of the range 2 to 8 with [n = 2] stops
    at the line cap and never reads the byte at 1; of two files that agree
    on the range and differ at 1, a newline in one and [y] in the other, it
    returns the same lines. *)
Lemma capped_scan_ignores_byte_below :
  let fs1 := log_fs ["x"; "a"; "b"; "c"] "" in
  let fs2 := node_fs [(log, ("xy" ++ file_of_lines ["a"; "b"; "c"])%string)] in
  fs_read fs1 3 1 = Ok (Some nl) /\
  fs_read fs2 3 1 = Ok (Some "y"%char) /\
  (exists tr, readLastLines "x" fs1 log 2 8 2 = Some (tr, CbOk ["b"; "c"]) /\
              ~ In (FsRead 3 1) tr) /\
  scan_result "x" fs2 log 2 8 2 = scan_result "x" fs1 log 2 8 2.
Proof.
  repeat split.
  eexists. split; [reflexivity|].
  intros H. simpl in H.
  repeat (destruct H as [H|H]; [discriminate|]). exact H.
Qed.

(** C10, as the code has it. When the range holds lines, at most [n] of
    them with [n] at least 2, maybe followed by an unfinished line, the scan
    also reads the byte just below the range, and what it returns depends
    on that byte: with a newline there it returns all the lines of the
    range, with another byte it returns them without the first, the line
    that begins at [from]. *)
Theorem byte_below_range_decides_first_line (u : ascii) (fs1 fs2 : Fs)
  (p : string) (fd1 fd2 from n : Z) (c : ascii) (l : string)
  (ls : list string) (tl_ : string) :
  let body := (file_of_lines (l :: ls) ++ tl_)%string in
  let to := from + Z.of_nat (String.length body) in
  fs_open fs1 p = Ok fd1 ->
  fs_open fs2 p = Ok fd2 ->
  holds fs1 fd1 (from - 1) (String nl body) ->
  holds fs2 fd2 (from - 1) (String c body) ->
  c <> nl ->
  forallb no_nl (l :: ls) = true ->
  no_nl tl_ = true ->
  Z.max 1 (Z.of_nat (List.length ls)) < n ->
  exists tr1 tr2,
    readLastLines u fs1 p from to n
    = Some (tr1, CbOk (bytewise l :: map bytewise ls)) /\
    readLastLines u fs2 p from to n = Some (tr2, CbOk (map bytewise ls)) /\
    In (FsRead fd1 (from - 1)) tr1 /\
    In (FsRead fd2 (from - 1)) tr2.
Proof.
  intros body to Ho1 Ho2 Hh1 Hh2 Hc Hall Ht Hn.
  assert (Eto : to = from - 1 + 1 + Z.of_nat (String.length body))
    by (unfold to; lia).
  pose proof (readLastLines_window u fs1 p fd1 from n (from - 1) nl l ls tl_
                Ho1 Hh1 Hall Ht) as W1.
  pose proof (readLastLines_window u fs2 p fd2 from n (from - 1) c l ls tl_
                Ho2 Hh2 Hall Ht) as W2.
  fold body in W1, W2. rewrite <- Eto in W1, W2.
  apply Ascii.eqb_neq in Hc. rewrite Hc in W2.
  change (Ascii.eqb nl nl) with true in W1. cbv iota in W1.
  eexists. eexists.
  split; [apply W1; lia|]. split; [apply W2; lia|].
  split; right; apply in_or_app; left; apply reads_In_lo.
Qed.

Lemma byte_below_range_decides_first_line_witness :
  exists tr1 tr2,
    readLastLines "x" (log_fs ["x"; "a"; "b"] "") log 2 6 2
    = Some (tr1, CbOk ["a"; "b"]) /\
    readLastLines "x" (node_fs [(log, ("xy" ++ file_of_lines ["a"; "b"])%string)])
                  log 2 6 2
    = Some (tr2, CbOk ["b"]) /\
    In (FsRead 3 1) tr1 /\ In (FsRead 3 1) tr2.
Proof.
  apply (byte_below_range_decides_first_line "x"
           (log_fs ["x"; "a"; "b"] "")
           (node_fs [(log, ("xy" ++ file_of_lines ["a"; "b"])%string)])
           log 3 3 2 2 "y" "a" ["b"] "").
  - reflexivity.
  - reflexivity.
  - simpl. repeat split; reflexivity.
  - simpl. repeat split; reflexivity.
  - discriminate.
  - reflexivity.
  - reflexivity.
  - simpl. lia.
Defined.

(** ** Scans that return the lines of the range *)

(** The lines appended after a newline, at most [n] of them with [n] at
    least 2, are all returned. *)
Lemma growth_lines (u : ascii) (fs : Fs) (p : string) (fd from n : Z)
  (l : string) (ls : list string) :
  fs_open fs p = Ok fd ->
  holds fs fd (from - 1) (String nl (file_of_lines (l :: ls))) ->
  forallb no_nl (l :: ls) = true ->
  2 <= n -> Z.of_nat (List.length (l :: ls)) <= n ->
  scan_result u fs p from
    (from + Z.of_nat (String.length (file_of_lines (l :: ls)))) n
  = Some (CbOk (map bytewise (l :: ls))).
Proof.
  intros Ho Hh Hall Hn Hk.
  pose proof (readLastLines_window u fs p fd from n (from - 1) nl l ls
                EmptyString Ho) as W.
  cbv zeta in W. rewrite append_empty_r in W.
  unfold scan_result.
  replace (from + Z.of_nat (String.length (file_of_lines (l :: ls))))
    with (from - 1 + 1 + Z.of_nat (String.length (file_of_lines (l :: ls))))
    by lia.
  rewrite W; try assumption; try reflexivity; try lia.
  simpl List.length in Hk. lia.
Qed.

(** The last [n] lines of a range, with [n] at least 2 and a newline before
    them that the scan may read, are returned, whatever comes before. *)
Lemma newest_lines (u : ascii) (fs : Fs) (p : string) (fd from n lo : Z)
  (l : string) (ls : list string) :
  fs_open fs p = Ok fd ->
  holds fs fd lo (String nl (file_of_lines (l :: ls))) ->
  forallb no_nl (l :: ls) = true ->
  from - 1 <= lo ->
  2 <= n -> Z.of_nat (List.length (l :: ls)) = n ->
  scan_result u fs p from
    (lo + 1 + Z.of_nat (String.length (file_of_lines (l :: ls)))) n
  = Some (CbOk (map bytewise (l :: ls))).
Proof.
  intros Ho Hh Hall Hlo Hn Hk.
  pose proof (readLastLines_window u fs p fd from n lo nl l ls
                EmptyString Ho) as W.
  cbv zeta in W. rewrite append_empty_r in W.
  unfold scan_result. simpl List.length in Hk.
  rewrite W; try assumption; try reflexivity; try lia.
  right. split; [reflexivity|lia].
Qed.

(** A scan returns at most [n] lines. *)
Lemma readChar_length (fs : Fs) (fd from n : Z) :
  0 <= n ->
  forall f s tr ls,
    Z.of_nat (List.length (res s)) <= ctr s ->
    ctr s = 0 \/ ctr s < n ->
    readChar f fs fd from n s = Some (tr, CbOk ls) ->
    Z.of_nat (List.length ls) <= n.
Proof.
  intros Hn. induction f as [|f IH]; intros s tr ls Hres Hctr H;
    [discriminate|].
  simpl in H.
  destruct (fs_read fs fd (pos s - 1)) as [e|r]; [discriminate|].
  set (s2 := on_byte r (dec_pos s)) in *.
  assert (Hs2 : Z.of_nat (List.length (res s2)) <= ctr s2 /\
                Z.of_nat (List.length (res s2)) <= n).
  { unfold s2, on_byte.
    destruct (Ascii.eqb _ nl); [destruct (ctr (dec_pos s) =? 0) eqn:E|];
      simpl in *.
    - apply Z.eqb_eq in E. lia.
    - apply Z.eqb_neq in E. lia.
    - lia. }
  destruct (again from n s2) eqn:Ea.
  - destruct (readChar f fs fd from n s2) as [[tr' a']|] eqn:E;
      [|discriminate].
    inversion H; subst tr a'.
    apply (IH s2 tr' ls); [tauto| |exact E].
    unfold again in Ea. apply andb_true_iff in Ea. destruct Ea as [_ Ea].
    apply Z.ltb_lt in Ea. right. exact Ea.
  - inversion H; subst tr ls. tauto.
Qed.

Lemma readLastLines_length (u : ascii) (fs : Fs) (p : string)
  (from to n : Z) (tr : list fs_call) (ls : list string) :
  0 <= n ->
  readLastLines u fs p from to n = Some (tr, CbOk ls) ->
  Z.of_nat (List.length ls) <= n.
Proof.
  intros Hn H. unfold readLastLines in H.
  destruct (fs_open fs p) as [e|fd]; [discriminate|].
  destruct (readChar _ fs fd from n _) as [[tr' a]|] eqn:E; [|discriminate].
  inversion H; subst tr a.
  apply (readChar_length fs fd from n Hn _ _ _ _) with (3 := E);
    simpl; lia.
Qed.

(** ** Where the code departs from its documentation *)

(** C1. On the file of the two lines [a] and [b] the session built with
    [n = 2] emits [b] only: the scan reaches the start of the file without
    a newline before the first line.  On the file of the one line [a] the
    session built with [n = 1] emits nothing: the first newline already
    counts for a line. *)
Theorem first_line_not_emitted :
  option_map snd (session 2 [Complete 0 (log_fs ["a"; "b"] "") "x";
                             Complete 0 (log_fs ["a"; "b"] "") "x"])
  = Some [Line "b"] /\
  option_map snd (session 1 [Complete 0 (log_fs ["a"] "") "x";
                             Complete 0 (log_fs ["a"] "") "x"])
  = Some [].
Proof. split; reflexivity. Qed.

(** C2. The session with [n = 1] has scanned the file of the line [a]
    ([_size] is 2); the line [b] is appended and notified: nothing is
    emitted and [_size] becomes 4.  With an empty file scanned first and
    [n = 2], the lines [a] and [b] appended give [b] only. *)
Theorem appended_line_not_emitted :
  _size (started 1 ["a"]) = 2 /\
  run' [Notify "change" None;
        Complete 0 (log_fs ["a"; "b"] "") "x";
        Complete 0 (log_fs ["a"; "b"] "") "x"] (started 1 ["a"])
  = ({| path := log; count := 1; _size := 4;
        watcher := Some {| w_path := log; w_closed := false; w_id := 0%nat |};
        inflight := [];
        watches := 1%nat |}, []) /\
  _size (started 2 []) = 0 /\
  run' [Notify "change" None;
        Complete 0 (log_fs ["a"; "b"] "") "x";
        Complete 0 (log_fs ["a"; "b"] "") "x"] (started 2 [])
  = ({| path := log; count := 2; _size := 4;
        watcher := Some {| w_path := log; w_closed := false; w_id := 0%nat |};
        inflight := [];
        watches := 1%nat |}, [Line "b"]).
Proof. repeat split. Qed.

(** C3. The session with [n = 1] has scanned the file of the line [x]
    ([_size] is 2); the two lines [a] and [b] are appended in one step and
    notified: no line is emitted, not even [b], and [_size] becomes 6. *)
Theorem overflow_with_one_line_emits_nothing :
  _size (started 1 ["x"]) = 2 /\
  run' [Notify "change" None;
        Complete 0 (log_fs ["x"; "a"; "b"] "") "x";
        Complete 0 (log_fs ["x"; "a"; "b"] "") "x"] (started 1 ["x"])
  = ({| path := log; count := 1; _size := 6;
        watcher := Some {| w_path := log; w_closed := false; w_id := 0%nat |};
        inflight := [];
        watches := 1%nat |}, []).
Proof. repeat split. Qed.

(** C8. The scan of the file of the line [a] whose read at position 0
    fails: the file is opened, two reads are made, [cb] receives the error,
    and [fs.close] is not called. *)
Theorem read_error_leaves_descriptor_open :
  readLastLines "x" (failing_read 0 (log_fs ["a"] "")) log 0 2 2
  = Some ([FsOpen log; FsRead 3 1; FsRead 3 0], CbErr "EIO").
Proof. reflexivity. Qed.

(** ** Failing probes and opens, run *)

(** The [fs.stat] of a change fails, or the [fs.open] of the scan of a
    growth fails: one [error], and the session keeps its [_size]. *)
Example stat_failure_run :
  run' [Notify "change" None;
        Complete 0 (failing_stat (log_fs ["a"; "b"] "")) "x"]
       (started 2 ["a"])
  = (started 2 ["a"], [Error "EACCES"]).
Proof. reflexivity. Qed.

Example open_failure_run :
  step' (Complete 0 (failing_open (log_fs ["a"; "b"] "")) "x")
        (growing 2 ["a"] ["a"; "b"])
  = Stepped (started 2 ["a"]) [Error "EMFILE"].
Proof. reflexivity. Qed.

(** * Further properties of the scanner *)

Lemma downward_S (fd to : Z) (k : nat) :
  downward fd to (S k) = FsRead fd (to - 1) :: downward fd (to - 1) k.
Proof.
  unfold downward. cbn [seq map]. f_equal.
  - f_equal. simpl. lia.
  - rewrite <- seq_shift, map_map. apply map_ext.
    intros i. f_equal. lia.
Qed.

Lemma readChar_calls (fs : Fs) (fd from n : Z) :
  forall f s tr a,
    readChar f fs fd from n s = Some (tr, a) ->
    exists k,
      (1 <= k)%nat /\
      Z.of_nat k <= Z.max 1 (pos s - from + 1) /\
      tr = downward fd (pos s) k ++ closing fd a.
Proof.
  induction f as [|f IH]; intros s tr a H; [discriminate|].
  simpl in H.
  destruct (fs_read fs fd (pos s - 1)) as [e|r].
  - inversion H; subst tr a. exists 1%nat.
    split; [lia|]. split; [lia|]. rewrite downward_S. reflexivity.
  - destruct (again from n (on_byte r (dec_pos s))) eqn:Ea.
    + destruct (readChar f fs fd from n _) as [[tr' a']|] eqn:E;
        [|discriminate].
      inversion H; subst tr a'.
      destruct (IH _ _ _ E) as (k & Hk1 & Hk2 & Htr).
      rewrite on_byte_pos in Hk2, Htr. simpl pos in Hk2, Htr.
      unfold again in Ea. apply andb_true_iff in Ea. destruct Ea as [Hp _].
      rewrite on_byte_pos in Hp. simpl in Hp. apply Z.leb_le in Hp.
      exists (S k). split; [lia|]. split; [lia|].
      rewrite downward_S, Htr. reflexivity.
    + inversion H; subst tr a. exists 1%nat.
      split; [lia|]. split; [lia|]. rewrite downward_S. reflexivity.
Qed.

(** X1. The calls a scan makes on [fs] once the file is open: the open,
    then at least one and at most [to - from + 1] reads of one byte (one
    read when the range is empty or reversed), whose position arguments are
    [to - 1], [to - 2], ... one below the other, then [fs.close] when [cb]
    receives the lines and nothing when it receives an error.  So no
    position at or above [to] is asked for, and the lowest one asked for is
    [from - 1] at least when the range is not reversed: for [from = 0] that
    is the position -1, which is not a byte of the file. *)
Theorem scan_calls (u : ascii) (fs : Fs) (p : string) (fd from to n : Z)
  (tr : list fs_call) (a : cb_args) :
  fs_open fs p = Ok fd ->
  readLastLines u fs p from to n = Some (tr, a) ->
  exists k,
    (1 <= k)%nat /\
    Z.of_nat k <= Z.max 1 (to - from + 1) /\
    tr = FsOpen p :: downward fd to k ++ closing fd a.
Proof.
  intros Ho H. unfold readLastLines in H. rewrite Ho in H.
  destruct (readChar _ fs fd from n _) as [[tr' a']|] eqn:E; [|discriminate].
  inversion H; subst tr a'.
  destruct (readChar_calls fs fd from n _ _ _ _ E) as (k & Hk1 & Hk2 & Htr).
  exists k. simpl pos in Hk2, Htr. rewrite Htr. auto.
Qed.

Lemma scan_calls_witness :
  exists k,
    (1 <= k)%nat /\
    Z.of_nat k <= Z.max 1 (4 - 2 + 1) /\
    [FsOpen log; FsRead 3 3; FsRead 3 2; FsRead 3 1; FsClose 3]
    = FsOpen log :: downward 3 4 k ++ closing 3 (CbOk ["b"]).
Proof.
  apply (scan_calls "x" (log_fs ["a"; "b"] "") log 3 2 4 2); reflexivity.
Defined.

(** X2. A scan returns at most [n] lines, for [n] not negative. *)
Theorem scan_returns_at_most_n (u : ascii) (fs : Fs) (p : string)
  (from to n : Z) (tr : list fs_call) (ls : list string) :
  0 <= n ->
  readLastLines u fs p from to n = Some (tr, CbOk ls) ->
  Z.of_nat (List.length ls) <= n.
Proof. intros Hn H. exact (readLastLines_length u fs p from to n tr ls Hn H). Qed.

Lemma scan_returns_at_most_n_witness :
  Z.of_nat (List.length ["b"; "c"]) <= 2.
Proof.
  apply (scan_returns_at_most_n "x" (log_fs ["x"; "a"; "b"; "c"] "") log
           2 8 2 [FsOpen log; FsRead 3 7; FsRead 3 6; FsRead 3 5; FsRead 3 4;
                  FsRead 3 3; FsClose 3]).
  - lia.
  - reflexivity.
Defined.

Lemma readChar_one_line (fs : Fs) (fd from n : Z) :
  n <= 1 ->
  forall f s tr ls,
    ctr s = 0 -> res s = [] ->
    readChar f fs fd from n s = Some (tr, CbOk ls) ->
    ls = [].
Proof.
  intros Hn. induction f as [|f IH]; intros s tr ls Hc Hr H; [discriminate|].
  simpl in H.
  destruct (fs_read fs fd (pos s - 1)) as [e|r]; [discriminate|].
  set (s2 := on_byte r (dec_pos s)) in *.
  assert (Hs2 : res s2 = [] /\ (ctr s2 = 0 \/ ctr s2 = 1)).
  { unfold s2, on_byte. simpl. rewrite Hc. simpl.
    destruct (Ascii.eqb _ nl); simpl; auto. }
  destruct Hs2 as [Hr2 Hc2].
  destruct (again from n s2) eqn:Ea.
  - destruct (readChar f fs fd from n s2) as [[tr' a']|] eqn:E;
      [|discriminate].
    inversion H; subst tr a'.
    unfold again in Ea. apply andb_true_iff in Ea. destruct Ea as [_ Ea].
    apply Z.ltb_lt in Ea.
    apply (IH s2 tr' ls); [lia|exact Hr2|exact E].
  - inversion H; subst tr ls. exact Hr2.
Qed.

(** X3. With [n] at most 1 a scan returns no line, whatever the file holds:
    [cb] receives the empty list, or the error of a failed open or read.
    The first newline sets [ctr] to 1 and the test [ctr < n] ends the loop
    before a line is put in [res]. *)
Theorem scan_of_one_line_returns_none (u : ascii) (fs : Fs) (p : string)
  (from to n : Z) :
  n <= 1 ->
  scan_result u fs p from to n = Some (CbOk []) \/
  exists e, scan_result u fs p from to n = Some (CbErr e).
Proof.
  intros Hn. unfold scan_result.
  destruct (readLastLines_total u fs p from to n) as (tr & a & H).
  rewrite H. simpl. destruct a as [e|ls]; [right; eauto|left].
  unfold readLastLines in H.
  destruct (fs_open fs p) as [e|fd]; [discriminate|].
  destruct (readChar _ fs fd from n _) as [[tr' a]|] eqn:E; [|discriminate].
  inversion H; subst tr a.
  now rewrite (readChar_one_line fs fd from n Hn _ (scan0 u to) _ _
                 eq_refl eq_refl E).
Qed.

Lemma scan_of_one_line_returns_none_witness :
  scan_result "x" (log_fs ["x"; "a"; "b"] "") log 0 6 1 = Some (CbOk []) \/
  exists e,
    scan_result "x" (log_fs ["x"; "a"; "b"] "") log 0 6 1 = Some (CbErr e).
Proof.
  apply (scan_of_one_line_returns_none "x" (log_fs ["x"; "a"; "b"] "") log
           0 6 1).
  lia.
Defined.

(** ** The text of the lines *)

Lemma no_nl_app (a b : string) :
  no_nl (a ++ b) = no_nl a && no_nl b.
Proof.
  induction a as [|x a IH]; simpl; [reflexivity|].
  rewrite IH. now rewrite andb_assoc.
Qed.

Lemma buf_toString_no_nl (b : ascii) :
  Ascii.eqb b nl = false -> no_nl (buf_toString b) = true.
Proof.
  intros H. unfold buf_toString.
  destruct (N_of_ascii b <? 128)%N; simpl; [|reflexivity].
  now rewrite H.
Qed.

Lemma on_byte_no_nl (r : option ascii) (s : scan) :
  no_nl (cur s) = true -> forallb no_nl (res s) = true ->
  no_nl (cur (on_byte r s)) = true /\
  forallb no_nl (res (on_byte r s)) = true.
Proof.
  intros Hc Hr. unfold on_byte.
  destruct (Ascii.eqb _ nl) eqn:E; [destruct (negb _)|]; simpl; auto.
  - rewrite Hc, Hr. auto.
  - rewrite no_nl_app, (buf_toString_no_nl _ E), Hc. auto.
Qed.

Lemma readChar_no_nl (fs : Fs) (fd from n : Z) :
  forall f s tr ls,
    no_nl (cur s) = true -> forallb no_nl (res s) = true ->
    readChar f fs fd from n s = Some (tr, CbOk ls) ->
    forallb no_nl ls = true.
Proof.
  induction f as [|f IH]; intros s tr ls Hc Hr H; [discriminate|].
  simpl in H.
  destruct (fs_read fs fd (pos s - 1)) as [e|r]; [discriminate|].
  destruct (on_byte_no_nl r (dec_pos s) Hc Hr) as [Hc2 Hr2].
  destruct (again from n _).
  - destruct (readChar f fs fd from n _) as [[tr' a']|] eqn:E;
      [|discriminate].
    inversion H; subst tr a'. exact (IH _ _ _ Hc2 Hr2 E).
  - inversion H; subst tr ls. exact Hr2.
Qed.

(** X4. No line that a scan returns holds a newline byte, whatever the
    file system reads, also where a read stores nothing and the byte left
    in the buffer is used again. *)
Theorem lines_hold_no_newline (u : ascii) (fs : Fs) (p : string)
  (from to n : Z) (tr : list fs_call) (ls : list string) :
  readLastLines u fs p from to n = Some (tr, CbOk ls) ->
  forallb no_nl ls = true.
Proof.
  intros H. unfold readLastLines in H.
  destruct (fs_open fs p) as [e|fd]; [discriminate|].
  destruct (readChar _ fs fd from n _) as [[tr' a]|] eqn:E; [|discriminate].
  inversion H; subst tr a.
  exact (readChar_no_nl fs fd from n _ (scan0 u to) _ _ eq_refl eq_refl E).
Qed.

Lemma lines_hold_no_newline_witness :
  forallb no_nl ["a"; "b"; "c"] = true.
Proof.
  apply (lines_hold_no_newline "x" (log_fs ["x"; "a"; "b"; "c"] "") log
           2 8 3
           [FsOpen log; FsRead 3 7; FsRead 3 6; FsRead 3 5; FsRead 3 4;
            FsRead 3 3; FsRead 3 2; FsRead 3 1; FsClose 3]).
  reflexivity.
Defined.

(** The text built for a run of bytes: the run itself when all its bytes
    are below 128, and two bytes longer for every byte at or above 128. *)
Lemma bytewise_text (s : string) :
  (is_ascii7 s = true -> bytewise s = s) /\
  String.length (bytewise s) = (String.length s + 2 * high_bytes s)%nat.
Proof.
  split.
  - induction s as [|b s IH]; intros H; [reflexivity|].
    simpl in H. apply andb_true_iff in H. destruct H as [Hb Hs].
    simpl. unfold buf_toString. rewrite Hb. simpl. now rewrite (IH Hs).
  - induction s as [|b s IH]; [reflexivity|].
    simpl bytewise. rewrite append_length, IH. unfold buf_toString.
    simpl high_bytes. simpl String.length.
    destruct (N_of_ascii b <? 128)%N; simpl; lia.
Qed.

Lemma map_bytewise_ascii (ls : list string) :
  forallb is_ascii7 ls = true -> map bytewise ls = ls.
Proof.
  induction ls as [|l ls IH]; intros H; [reflexivity|].
  simpl in H. apply andb_true_iff in H. destruct H as [Hl Hls].
  simpl. now rewrite (proj1 (bytewise_text l) Hl), (IH Hls).
Qed.

Lemma texts_of_lines (ls : list string) :
  Forall2 (fun line text =>
             text = bytewise line /\
             (is_ascii7 line = true -> text = line) /\
             String.length text
             = (String.length line + 2 * high_bytes line)%nat)
          ls (map bytewise ls).
Proof.
  induction ls as [|l ls IH]; simpl; constructor; [|exact IH].
  destruct (bytewise_text l) as [H1 H2]. auto.
Qed.

(** X5. What [cur = buf + cur] puts in [cur], and what text a scan returns
    for the bytes of a line.  A byte other than the newline goes to the
    front of [cur] as it is when it is below 128, and as the three bytes of
    U+FFFD when it is not: every byte is converted on its own.  So, for a
    range of lines behind a newline that the scan returns whole, the text
    returned for a line is the line itself when all its bytes are below
    128, and is in any case two bytes longer than the line for each of its
    bytes at or above 128: the bytes of a character of several bytes are
    not put together again. *)
Theorem returned_text :
  (forall (b : ascii) (s : scan),
      Ascii.eqb b nl = false ->
      cur (on_byte (Some b) s) =
      if (N_of_ascii b <? 128)%N then String b (cur s)
      else (replacement ++ cur s)%string) /\
  (forall (u : ascii) (fs : Fs) (p : string) (fd from n : Z) (l : string)
          (ls : list string),
      fs_open fs p = Ok fd ->
      holds fs fd (from - 1) (String nl (file_of_lines (l :: ls))) ->
      forallb no_nl (l :: ls) = true ->
      2 <= n -> Z.of_nat (List.length (l :: ls)) <= n ->
      exists texts,
        scan_result u fs p from
          (from + Z.of_nat (String.length (file_of_lines (l :: ls)))) n
        = Some (CbOk texts) /\
        Forall2 (fun line text =>
                   text = bytewise line /\
                   (is_ascii7 line = true -> text = line) /\
                   String.length text
                   = (String.length line + 2 * high_bytes line)%nat)
                (l :: ls) texts).
Proof.
  split.
  - intros b s Hb. unfold on_byte. rewrite Hb. simpl. unfold buf_toString.
    destruct (N_of_ascii b <? 128)%N; reflexivity.
  - intros u fs p fd from n l ls Ho Hh Hall Hn Hk.
    exists (map bytewise (l :: ls)). split.
    + exact (growth_lines u fs p fd from n l ls Ho Hh Hall Hn Hk).
    + apply texts_of_lines.
Qed.

Lemma returned_text_witness :
  cur (on_byte (Some "195"%char) (scan0 "x" 7)) = replacement /\
  exists texts,
    scan_result "x" (log_fs ["a"; "b"; e_acute] "") log 2 7 2
    = Some (CbOk texts) /\
    Forall2 (fun line text =>
               text = bytewise line /\
               (is_ascii7 line = true -> text = line) /\
               String.length text
               = (String.length line + 2 * high_bytes line)%nat)
            ["b"; e_acute] texts.
Proof.
  destruct returned_text as [H1 H2]. split.
  - apply (H1 "195"%char (scan0 "x" 7)). reflexivity.
  - apply (H2 "x"%char (log_fs ["a"; "b"; e_acute] "") log 3 2 2
              "b" [e_acute]).
    + reflexivity.
    + simpl. repeat split; reflexivity.
    + reflexivity.
    + lia.
    + simpl. lia.
Defined.

(** * Further properties of the session *)

Lemma scan_result_inv (u : ascii) (fs : Fs) (p : string) (from to n : Z)
  (a : cb_args) :
  scan_result u fs p from to n = Some a ->
  exists tr, readLastLines u fs p from to n = Some (tr, a).
Proof.
  unfold scan_result. intros H.
  destruct (readLastLines u fs p from to n) as [[tr a']|]; [|discriminate].
  inversion H; subst a'. eauto.
Qed.

Lemma file_of_lines_app (a b : list string) :
  file_of_lines (a ++ b) = (file_of_lines a ++ file_of_lines b)%string.
Proof.
  induction a as [|x a IH]; simpl; [reflexivity|].
  rewrite IH, append_assoc. reflexivity.
Qed.

Lemma file_of_lines_ends (ls : list string) :
  ls <> [] ->
  exists m, file_of_lines ls = (m ++ String nl EmptyString)%string.
Proof.
  induction ls as [|x ls IH]; intros H; [congruence|].
  destruct ls as [|y ls'].
  - exists x. reflexivity.
  - destruct IH as [m Hm]; [discriminate|].
    exists (x ++ String nl m)%string.
    change (file_of_lines (x :: y :: ls'))
      with (x ++ String nl (file_of_lines (y :: ls')))%string.
    rewrite Hm, append_assoc. reflexivity.
Qed.

(** The scan of a range that ends with [n] lines, after older lines that
    lie in the file at or above [from]. *)
Lemma newest_of_file (u : ascii) (fs : Fs) (p : string) (fd from n lo : Z)
  (older : list string) (l : string) (ls : list string) :
  fs_open fs p = Ok fd ->
  holds fs fd lo (file_of_lines (older ++ l :: ls)) ->
  older <> [] ->
  forallb no_nl (l :: ls) = true ->
  from <= lo ->
  2 <= n -> Z.of_nat (List.length (l :: ls)) = n ->
  scan_result u fs p from
    (lo + Z.of_nat (String.length (file_of_lines (older ++ l :: ls)))) n
  = Some (CbOk (map bytewise (l :: ls))).
Proof.
  intros Ho Hh Hold Hall Hlo Hn Hk.
  destruct (file_of_lines_ends older Hold) as [m Hm].
  rewrite file_of_lines_app, Hm, append_assoc in Hh |- *.
  change (String nl EmptyString ++ file_of_lines (l :: ls))%string
    with (String nl (file_of_lines (l :: ls))) in Hh |- *.
  apply holds_app in Hh. destruct Hh as [_ Hh].
  rewrite append_length.
  change (String.length (String nl (file_of_lines (l :: ls))))
    with (S (String.length (file_of_lines (l :: ls)))).
  replace (lo + Z.of_nat (String.length m
                          + S (String.length (file_of_lines (l :: ls)))))
    with (lo + Z.of_nat (String.length m) + 1
          + Z.of_nat (String.length (file_of_lines (l :: ls)))) by lia.
  apply (newest_lines u fs p fd from n); try assumption. lia.
Qed.

Section Deliveries.

Variable dirname : string -> string.
Variable resolve : string -> string -> string.

(** X6. Construction on a file of lines, each ended by a newline, of which
    there are more than [n], with [n] at least 2: once the size is known and
    the first scan is done, the session has emitted one [line] for each of
    the last [n] lines, in the order of the file, with the text the scan
    builds byte by byte, which is the line itself when all its bytes are
    below 128; [_size] is the size of the file and the watcher is set. *)
Theorem construction_emits_last_lines (p : string) (n : Z) (t0 : Taf)
  (fs0 fs : Fs) (u0 u : ascii) (fd : Z)
  (older : list string) (l : string) (ls : list string) :
  let file := file_of_lines (older ++ l :: ls) in
  let r := run dirname resolve [Complete 0 fs0 u0; Complete 0 fs u] t0 in
  let t' := {| path := p; count := n;
               _size := Z.of_nat (String.length file);
               watcher := Some {| w_path := p; w_closed := false;
                                  w_id := 0%nat |};
               inflight := [];
               watches := 1%nat |} in
  Taf_new p (Some n) = Some t0 ->
  fs_stat fs0 p = Ok (Z.of_nat (String.length file)) ->
  fs_open fs p = Ok fd ->
  holds fs fd 0 file ->
  older <> [] ->
  forallb no_nl (l :: ls) = true ->
  2 <= n -> Z.of_nat (List.length (l :: ls)) = n ->
  r = (t', map Line (map bytewise (l :: ls))) /\
  (forallb is_ascii7 (l :: ls) = true -> r = (t', map Line (l :: ls))).
Proof.
  intros file r t' Hnew Hs Ho Hh Hold Hall Hn Hk.
  assert (Hrun : r = (t', map Line (map bytewise (l :: ls)))).
  { unfold r, t'. unfold Taf_new in Hnew.
    destruct (String.eqb p EmptyString); [discriminate|].
    inversion Hnew; subst t0. clear Hnew.
    destruct (scan_result_inv u fs p 0 (Z.of_nat (String.length file)) n _
                (newest_of_file u fs p fd 0 n 0 older l ls Ho Hh Hold Hall
                   (Z.le_refl 0) Hn Hk)) as [tr Hr].
    cbn [run step inflight nth_error]. rewrite Hs.
    cbn [stat_init_cb retire set_inflight remove_nth inflight path count
         _size watcher watches processFileChange issue setWatcher app
         nth_error].
    rewrite Hr.
    cbn [processFileChange_cb retire set_inflight remove_nth inflight path
         count _size watcher watches].
    rewrite !app_nil_r. reflexivity. }
  split; [exact Hrun|].
  intros Ha. rewrite Hrun, (map_bytewise_ascii (l :: ls) Ha). reflexivity.
Qed.

(** X7. A growth by lines appended behind a newline, at most [n] of them
    with [n] at least 2: from the notification to the callback of the scan
    the session emits one [line] for each appended line, in the order of
    the file, with the text the scan builds byte by byte, which is the line
    itself when all its bytes are below 128; and [_size] becomes the new
    size. *)
Theorem growth_emits_appended_lines (t : Taf) (w : Watcher)
  (fn : option string) (fs1 fs2 : Fs) (u1 u2 : ascii) (fd : Z)
  (l : string) (ls : list string) :
  let sz := _size t + Z.of_nat (String.length (file_of_lines (l :: ls))) in
  let r := run dirname resolve
               [Notify "change" fn;
                Complete (List.length (inflight t)) fs1 u1;
                Complete (List.length (inflight t)) fs2 u2] t in
  let t' := {| path := path t; count := count t; _size := sz;
               watcher := watcher t; inflight := inflight t;
               watches := watches t |} in
  watcher t = Some w -> w_closed w = false ->
  fs_stat fs1 (w_path w) = Ok sz ->
  fs_open fs2 (path t) = Ok fd ->
  holds fs2 fd (_size t - 1) (String nl (file_of_lines (l :: ls))) ->
  forallb no_nl (l :: ls) = true ->
  2 <= count t -> Z.of_nat (List.length (l :: ls)) <= count t ->
  r = (t', map Line (map bytewise (l :: ls))) /\
  (forallb is_ascii7 (l :: ls) = true -> r = (t', map Line (l :: ls))).
Proof.
  intros sz r t' Hw Hc Hs Ho Hh Hall Hn Hk.
  assert (Hrun : r = (t', map Line (map bytewise (l :: ls)))).
  { destruct (scan_result_inv u2 fs2 (path t) (_size t) sz (count t) _
                (growth_lines u2 fs2 (path t) fd (_size t) (count t) l ls
                   Ho Hh Hall Hn Hk)) as [tr Hr].
    apply (run_growth dirname resolve t w fn fs1 fs2 u1 u2 sz tr);
      try assumption.
    unfold sz.
    assert (H : 0 < Z.of_nat (String.length (file_of_lines (l :: ls)))).
    { simpl file_of_lines. rewrite append_length. simpl String.length. lia. }
    lia. }
  split; [exact Hrun|].
  intros Ha. rewrite Hrun, (map_bytewise_ascii (l :: ls) Ha). reflexivity.
Qed.

(** X8. A growth by more than [n] lines in one step, with [n] at least 2:
    the session emits one [line] for each of the last [n] of the appended
    lines, in the order of the file, with the text the scan builds byte by
    byte, which is the line itself when all its bytes are below 128; and
    [_size] becomes the new size, so that the older appended lines lie
    below [_size]. *)
Theorem overflow_emits_newest_lines (t : Taf) (w : Watcher)
  (fn : option string) (fs1 fs2 : Fs) (u1 u2 : ascii) (fd : Z)
  (older : list string) (l : string) (ls : list string) :
  let sz := _size t +
            Z.of_nat (String.length (file_of_lines (older ++ l :: ls))) in
  let r := run dirname resolve
               [Notify "change" fn;
                Complete (List.length (inflight t)) fs1 u1;
                Complete (List.length (inflight t)) fs2 u2] t in
  let t' := {| path := path t; count := count t; _size := sz;
               watcher := watcher t; inflight := inflight t;
               watches := watches t |} in
  watcher t = Some w -> w_closed w = false ->
  fs_stat fs1 (w_path w) = Ok sz ->
  fs_open fs2 (path t) = Ok fd ->
  holds fs2 fd (_size t) (file_of_lines (older ++ l :: ls)) ->
  older <> [] ->
  forallb no_nl (l :: ls) = true ->
  2 <= count t -> Z.of_nat (List.length (l :: ls)) = count t ->
  r = (t', map Line (map bytewise (l :: ls))) /\
  (forallb is_ascii7 (l :: ls) = true -> r = (t', map Line (l :: ls))).
Proof.
  intros sz r t' Hw Hc Hs Ho Hh Hold Hall Hn Hk.
  assert (Hrun : r = (t', map Line (map bytewise (l :: ls)))).
  { destruct (scan_result_inv u2 fs2 (path t) (_size t) sz (count t) _
                (newest_of_file u2 fs2 (path t) fd (_size t) (count t)
                   (_size t) older l ls Ho Hh Hold Hall (Z.le_refl _) Hn Hk))
      as [tr Hr].
    apply (run_growth dirname resolve t w fn fs1 fs2 u1 u2 sz tr);
      try assumption.
    unfold sz. rewrite file_of_lines_app, append_length.
    assert (H : 0 < Z.of_nat (String.length (file_of_lines (l :: ls)))).
    { simpl file_of_lines. rewrite append_length. simpl String.length. lia. }
    lia. }
  split; [exact Hrun|].
  intros Ha. rewrite Hrun, (map_bytewise_ascii (l :: ls) Ha). reflexivity.
Qed.

End Deliveries.

Lemma construction_emits_last_lines_witness :
  run' [Complete 0 (log_fs ["a"; "b"; "c"] "") "x";
        Complete 0 (log_fs ["a"; "b"; "c"] "") "y"]
       {| path := log; count := 2; _size := 0; watcher := None;
          inflight := [OpStatInit log];
          watches := 0%nat |} =
  ({| path := log; count := 2; _size := 6;
      watcher := Some {| w_path := log; w_closed := false; w_id := 0%nat |};
      inflight := [];
      watches := 1%nat |},
   [Line "b"; Line "c"]) /\
  run' [Complete 0 (log_fs ["a"; "b"; e_acute] "") "x";
        Complete 0 (log_fs ["a"; "b"; e_acute] "") "y"]
       {| path := log; count := 2; _size := 0; watcher := None;
          inflight := [OpStatInit log];
          watches := 0%nat |} =
  ({| path := log; count := 2; _size := 7;
      watcher := Some {| w_path := log; w_closed := false; w_id := 0%nat |};
      inflight := [];
      watches := 1%nat |},
   [Line "b"; Line (replacement ++ replacement)]).
Proof.
  split.
  - apply (construction_emits_last_lines posix_dirname posix_resolve
             log 2 _ (log_fs ["a"; "b"; "c"] "") (log_fs ["a"; "b"; "c"] "")
             "x" "y" 3 ["a"] "b" ["c"]).
    + reflexivity.
    + reflexivity.
    + reflexivity.
    + simpl. repeat split; reflexivity.
    + discriminate.
    + reflexivity.
    + lia.
    + reflexivity.
    + reflexivity.
  - apply (construction_emits_last_lines posix_dirname posix_resolve
             log 2 _ (log_fs ["a"; "b"; e_acute] "")
             (log_fs ["a"; "b"; e_acute] "")
             "x" "y" 3 ["a"] "b" [e_acute]).
    + reflexivity.
    + reflexivity.
    + reflexivity.
    + simpl. repeat split; reflexivity.
    + discriminate.
    + reflexivity.
    + lia.
    + reflexivity.
Defined.

Lemma growth_emits_appended_lines_witness :
  run' [Notify "change" None;
        Complete 0 (log_fs ["a"; "b"; "c"] "") "x";
        Complete 0 (log_fs ["a"; "b"; "c"] "") "y"]
       (started 2 ["a"]) =
  ({| path := log; count := 2; _size := 6;
      watcher := Some {| w_path := log; w_closed := false; w_id := 0%nat |};
      inflight := [];
      watches := 1%nat |},
   [Line "b"; Line "c"]) /\
  run' [Notify "change" None;
        Complete 0 (log_fs ["a"; "b"; e_acute] "") "x";
        Complete 0 (log_fs ["a"; "b"; e_acute] "") "y"]
       (started 2 ["a"]) =
  ({| path := log; count := 2; _size := 7;
      watcher := Some {| w_path := log; w_closed := false; w_id := 0%nat |};
      inflight := [];
      watches := 1%nat |},
   [Line "b"; Line (replacement ++ replacement)]).
Proof.
  split.
  - apply (growth_emits_appended_lines posix_dirname posix_resolve
             (started 2 ["a"]) {| w_path := log; w_closed := false;
                                  w_id := 0%nat |} None
             (log_fs ["a"; "b"; "c"] "") (log_fs ["a"; "b"; "c"] "")
             "x" "y" 3 "b" ["c"]).
    + reflexivity.
    + reflexivity.
    + reflexivity.
    + reflexivity.
    + simpl. repeat split; reflexivity.
    + reflexivity.
    + simpl. lia.
    + simpl. lia.
    + reflexivity.
  - apply (growth_emits_appended_lines posix_dirname posix_resolve
             (started 2 ["a"]) {| w_path := log; w_closed := false;
                                  w_id := 0%nat |} None
             (log_fs ["a"; "b"; e_acute] "") (log_fs ["a"; "b"; e_acute] "")
             "x" "y" 3 "b" [e_acute]).
    + reflexivity.
    + reflexivity.
    + reflexivity.
    + reflexivity.
    + simpl. repeat split; reflexivity.
    + reflexivity.
    + simpl. lia.
    + simpl. lia.
Defined.

Lemma overflow_emits_newest_lines_witness :
  run' [Notify "change" None;
        Complete 0 (log_fs ["a"; "b"; "c"; "d"] "") "x";
        Complete 0 (log_fs ["a"; "b"; "c"; "d"] "") "y"]
       (started 2 ["a"]) =
  ({| path := log; count := 2; _size := 8;
      watcher := Some {| w_path := log; w_closed := false; w_id := 0%nat |};
      inflight := [];
      watches := 1%nat |},
   [Line "c"; Line "d"]) /\
  run' [Notify "change" None;
        Complete 0 (log_fs ["a"; "b"; e_acute; "d"] "") "x";
        Complete 0 (log_fs ["a"; "b"; e_acute; "d"] "") "y"]
       (started 2 ["a"]) =
  ({| path := log; count := 2; _size := 9;
      watcher := Some {| w_path := log; w_closed := false; w_id := 0%nat |};
      inflight := [];
      watches := 1%nat |},
   [Line (replacement ++ replacement); Line "d"]).
Proof.
  split.
  - apply (overflow_emits_newest_lines posix_dirname posix_resolve
             (started 2 ["a"]) {| w_path := log; w_closed := false;
                                  w_id := 0%nat |} None
             (log_fs ["a"; "b"; "c"; "d"] "")
             (log_fs ["a"; "b"; "c"; "d"] "")
             "x" "y" 3 ["b"] "c" ["d"]).
    + reflexivity.
    + reflexivity.
    + reflexivity.
    + reflexivity.
    + simpl. repeat split; reflexivity.
    + discriminate.
    + reflexivity.
    + simpl. lia.
    + reflexivity.
    + reflexivity.
  - apply (overflow_emits_newest_lines posix_dirname posix_resolve
             (started 2 ["a"]) {| w_path := log; w_closed := false;
                                  w_id := 0%nat |} None
             (log_fs ["a"; "b"; e_acute; "d"] "")
             (log_fs ["a"; "b"; e_acute; "d"] "")
             "x" "y" 3 ["b"] e_acute ["d"]).
    + reflexivity.
    + reflexivity.
    + reflexivity.
    + reflexivity.
    + simpl. repeat split; reflexivity.
    + discriminate.
    + reflexivity.
    + simpl. lia.
    + reflexivity.
Defined.

(** ** The life of the session *)



Section Life.

Variable dirname : string -> string.
Variable resolve : string -> string -> string.





(** X9. When the [fs.stat] of the constructor fails, one [error] is
    emitted and that is all the session ever does: no watcher is set,
    nothing is in flight, no later turn changes the session or emits
    anything, and [close()] throws, for want of a watcher. *)
Theorem failed_first_probe (p : string) (n : option Z) (t0 : Taf) (fs : Fs)
  (u : ascii) (e : error) :
  Taf_new p n = Some t0 ->
  fs_stat fs p = Err e ->
  exists t1,
    step dirname resolve (Complete 0 fs u) t0 = Stepped t1 [Error e] /\
    watcher t1 = None /\ inflight t1 = [] /\
    (forall ins, run dirname resolve ins t1 = (t1, [])) /\
    step dirname resolve Close t1 = Threw "TypeError".
Proof.
  intros Hnew Hs. unfold Taf_new in Hnew.
  destruct (String.eqb p EmptyString); [discriminate|].
  inversion Hnew; subst t0. clear Hnew.
  eexists. split; [simpl; rewrite Hs; reflexivity|].
  split; [reflexivity|]. split; [reflexivity|]. split; [|reflexivity].
  induction ins as [|i ins IH]; [reflexivity|].
  cbn [run]. destruct i as [k fs' u'|ev fn|]; simpl step.
  - destruct k; simpl; exact IH.
  - exact IH.
  - exact IH.
Qed.

(** X10. No turn changes [count], and only a [rename] notification changes
    [path]. *)
Theorem run_keeps_count_and_path (ins : list input) (t : Taf) :
  count (fst (run dirname resolve ins t)) = count t /\
  (forallb (fun i => negb (is_rename i)) ins = true ->
   path (fst (run dirname resolve ins t)) = path t).
Proof.
  assert (Hstep : forall i t t' out,
             step dirname resolve i t = Stepped t' out ->
             count t' = count t /\
             (is_rename i = false -> path t' = path t)).
  { clear. intros i t t' out H.
    destruct i as [k fs u|ev fn|]; simpl in H.
    - destruct (nth_error (inflight t) k) as [[p|p|p from to n]|];
        [| | |discriminate].
      + destruct (fs_stat fs p) as [e|sz]; simpl in H;
          inversion H; subst t' out; simpl; auto.
      + destruct (fs_stat fs p) as [e|sz]; simpl in H;
          [|destruct (_size t <? sz)];
          inversion H; subst t' out; simpl; auto.
      + destruct (readLastLines u fs p from to n) as [[tr [e|ls]]|];
          simpl in H; [| |discriminate];
          inversion H; subst t' out; simpl; auto.
    - destruct (watcher t) as [w|]; [|discriminate].
      destruct (w_closed w); [discriminate|].
      inversion H; subst t' out. unfold listener. simpl is_rename.
      destruct (String.eqb ev "change"); [simpl; auto|].
      destruct (String.eqb ev "rename"); [|auto].
      destruct (truthy fn); simpl; split; auto; discriminate.
    - unfold close in H. destruct (watcher t) as [w|]; [|discriminate].
      inversion H; subst t' out. simpl. auto. }
  revert t. induction ins as [|i ins IH]; intros t; [simpl; auto|].
  cbn [run forallb].
  destruct (step dirname resolve i t) as [t' out| |] eqn:E.
  - destruct (Hstep i t t' out E) as [Hc Hp].
    destruct (IH t') as [IHc IHp].
    destruct (run dirname resolve ins t') as [t'' out'] eqn:Er.
    simpl in *. split; [congruence|].
    intros Hall. apply andb_true_iff in Hall. destruct Hall as [Hi Hall].
    apply negb_true_iff in Hi. rewrite (IHp Hall). auto.
  - destruct (IH t) as [IHc IHp]. split; [exact IHc|].
    intros Hall. apply andb_true_iff in Hall. apply IHp. tauto.
  - destruct (IH t) as [IHc IHp]. split; [exact IHc|].
    intros Hall. apply andb_true_iff in Hall. apply IHp. tauto.
Qed.


End Life.

Lemma failed_first_probe_witness :
  exists t1,
    step' (Complete 0 (failing_stat (log_fs ["a"] "")) "x")
          {| path := log; count := 10; _size := 0; watcher := None;
             inflight := [OpStatInit log];
             watches := 0%nat |}
    = Stepped t1 [Error "EACCES"] /\
    watcher t1 = None /\ inflight t1 = [] /\
    (forall ins, run' ins t1 = (t1, [])) /\
    step' Close t1 = Threw "TypeError".
Proof.
  apply (failed_first_probe posix_dirname posix_resolve log None); reflexivity.
Defined.

Lemma run_keeps_count_and_path_witness :
  count (fst (run' [Notify "change" None;
                    Complete 0 (log_fs ["a"; "b"] "") "x"; Close]
                   (started 2 ["a"]))) = 2 /\
  path (fst (run' [Notify "change" None;
                   Complete 0 (log_fs ["a"; "b"] "") "x"; Close]
                  (started 2 ["a"]))) = log.
Proof.
  destruct (run_keeps_count_and_path posix_dirname posix_resolve
              [Notify "change" None;
               Complete 0 (log_fs ["a"; "b"] "") "x"%char; Close]
              (started 2 ["a"])) as [H1 H2].
  split; [exact H1|]. apply H2. reflexivity.
Defined.


(** * Properties of the constructor and of the module *)

Section ConstructorProperties.

Variable str_to_num : string -> num.
Variable bytes : prim -> prim.

Lemma or_num_truthy (a : num) : truthy_num (or_num a (Int 10)) = true.
Proof.
  unfold or_num. destruct (truthy_num a) eqn:E; [exact E|reflexivity].
Qed.

Lemma with_options_count (p : string) (x : num) (options : jsval) (b : built) :
  with_options str_to_num bytes p x options = Built b ->
  b_count b = x /\ b_path b = p.
Proof.
  unfold with_options. intros H.
  destruct options as [v|o].
  - destruct (truthy_prim v); inversion H; auto.
  - destruct (check_options str_to_num bytes o); [discriminate|].
    inversion H; auto.
Qed.

(** X12. When the second argument is an options object, [count] is the
    number of its [n] if that is neither 0 nor [NaN], else the number of
    its [count] if that is neither 0 nor [NaN], else 10: it is never 0 and
    never [NaN]; and the third argument plays no part. *)
Theorem count_from_options (path opts : jsval) (o : Options) (b : built) :
  Taf_construct str_to_num bytes path (Obj o) opts = Built b ->
  (exists z, b_count b = Int z /\ z <> 0) /\
  b_count b =
    (if truthy_num (ToNumber str_to_num (o_n o))
     then ToNumber str_to_num (o_n o)
     else if truthy_num (ToNumber str_to_num (o_count o))
          then ToNumber str_to_num (o_count o)
          else Int 10) /\
  Taf_construct str_to_num bytes path (Obj o) (Prim PUndefined) = Built b.
Proof.
  intros H. unfold Taf_construct in *.
  destruct (negb (truthy_val path)); [discriminate|].
  destruct path as [[| | | |p]|]; try discriminate.
  destruct (with_options_count _ _ _ _ H) as [Hc _].
  split; [|split; [|exact H]].
  - pose proof (or_num_truthy
                  (or_num (ToNumber str_to_num (o_n o))
                          (ToNumber str_to_num (o_count o)))) as Ht.
    fold (count_of_options str_to_num o) in Ht. rewrite <- Hc in Ht.
    destruct (b_count b) as [|z]; [discriminate|].
    exists z. split; [reflexivity|].
    simpl in Ht. apply negb_true_iff in Ht. apply Z.eqb_neq in Ht. exact Ht.
  - rewrite Hc. unfold count_of_options, or_num.
    destruct (truthy_num (ToNumber str_to_num (o_n o))) eqn:E1; cbv iota.
    + rewrite E1. reflexivity.
    + reflexivity.
Qed.

Lemma with_options_checked (p : string) (x : num) (options : jsval)
  (b : built) :
  with_options str_to_num bytes p x options = Built b ->
  (forall o s, b_options b = Obj o -> o_encoding o = PStr s -> s = "utf8") /\
  (b_bufferSize b = PUndefined \/ isNaN str_to_num (b_bufferSize b) = false).
Proof.
  unfold with_options. intros H. destruct options as [v|o0].
  - destruct (truthy_prim v); inversion H; subst b; simpl.
    + split; [discriminate|auto].
    + split; [|auto]. intros o s Ho He. inversion Ho; subst o. discriminate.
  - unfold check_options in H.
    destruct (check_encoding str_to_num o0) as [e|] eqn:Ee; [discriminate|].
    assert (Henc : forall s, o_encoding o0 = PStr s -> s = "utf8").
    { intros s Hs. unfold check_encoding in Ee. rewrite Hs in Ee.
      simpl in Ee. destruct (String.eqb s "utf8") eqn:E; [|discriminate].
      now apply String.eqb_eq in E. }
    unfold check_bufferSize in H.
    destruct (o_bufferSize o0) as [| |bb|bx|bs] eqn:Eb;
      try (destruct (isNaN str_to_num (bytes _)) eqn:En; [discriminate|]);
      inversion H; subst b; simpl;
      (split; [intros o s Ho He; inversion Ho; subst o; simpl in He; auto
              |auto]).
Qed.

(** X13. What construction accepts of the options: in an options object
    that the session keeps, an [encoding] that is a string is [utf8], and
    the [bufferSize] kept in [this] is undefined or is not [NaN]; with
    [new], a path and a number, an options object whose [encoding] is
    another string makes the constructor throw. *)
Theorem options_validated :
  (forall (path n opts : jsval) (b : built),
      Taf_construct str_to_num bytes path n opts = Built b ->
      (forall o s, b_options b = Obj o -> o_encoding o = PStr s ->
                   s = "utf8") /\
      (b_bufferSize b = PUndefined \/
       isNaN str_to_num (b_bufferSize b) = false)) /\
  (forall (p : string) (x : num) (o : Options) (s : string),
      p <> EmptyString -> o_encoding o = PStr s -> s <> "utf8" ->
      Taf_construct str_to_num bytes (Prim (PStr p)) (Prim (PNum x)) (Obj o)
      = Throws (AssertionError "only UTF-8 encoding is supported")).
Proof.
  split.
  - intros path n opts b H. unfold Taf_construct in H.
    destruct (negb (truthy_val path)); [discriminate|].
    destruct path as [[| | | |p]|]; try discriminate.
    destruct n as [[| |nb|nx|ns]|o]; try discriminate;
      exact (with_options_checked _ _ _ _ H).
  - intros p x o s Hp He Hs. unfold Taf_construct. simpl.
    apply String.eqb_neq in Hp. rewrite Hp. simpl.
    unfold check_options, check_encoding. rewrite He. simpl.
    apply String.eqb_neq in Hs. rewrite Hs. reflexivity.
Qed.

(** X14. Called without [new], with a path and a number, the constructor
    does not look at the third argument: the session is built with the
    options of a call without options, whatever the options object holds,
    an [encoding] that [new] refuses included. *)
Theorem call_drops_options (p : string) (x : num) (o : Options) :
  p <> EmptyString ->
  Taf_call str_to_num bytes (Prim (PStr p)) (Prim (PNum x)) (Obj o) =
  Built {| b_path := p; b_count := x; b_options := Obj default_options;
           b_bufferSize := PNum (Int 1024) |}.
Proof.
  intros Hp. unfold Taf_call, Taf_construct. simpl.
  apply String.eqb_neq in Hp. rewrite Hp. reflexivity.
Qed.

(** X15. The constructor given a string and a number, or no number, and
    no options: it throws for the empty path only, and the session it
    starts is the one [Taf_new] gives, with [count] 10 when no number is
    given, [_size] 0 and the first [fs.stat] in flight. *)
Theorem constructor_starts_session (p : string) (n : option Z) :
  match
    Taf_construct str_to_num bytes (Prim (PStr p))
      (match n with
       | Some z => Prim (PNum (Int z))
       | None => Prim PUndefined
       end)
      (Prim PUndefined)
  with
  | Built b => p <> EmptyString /\ session_of b = Taf_new p n
  | Throws e =>
    p = EmptyString /\ e = AssertionError "path is required" /\
    Taf_new p n = None
  end.
Proof.
  unfold Taf_construct, Taf_new. simpl.
  destruct (String.eqb p EmptyString) eqn:E; simpl.
  - apply String.eqb_eq in E. auto.
  - apply String.eqb_neq in E. destruct n as [z|]; simpl; auto.
Qed.

End ConstructorProperties.

Lemma count_from_options_witness :
  (exists z, Int 10 = Int z /\ z <> 0) /\
  Int 10 =
    (if truthy_num (ToNumber decimal PUndefined)
     then ToNumber decimal PUndefined
     else if truthy_num (ToNumber decimal (PNum (Int 0)))
          then ToNumber decimal (PNum (Int 0))
          else Int 10) /\
  Taf_construct decimal bytes_decimal (Prim (PStr log))
    (Obj {| o_n := PUndefined; o_count := PNum (Int 0);
            o_encoding := PStr "utf8"; o_bufferSize := PStr "512" |})
    (Prim PUndefined) =
  Built {| b_path := log; b_count := Int 10;
           b_options :=
             Obj {| o_n := PUndefined; o_count := PNum (Int 0);
                    o_encoding := PStr "utf8";
                    o_bufferSize := PNum (Int 512) |};
           b_bufferSize := PNum (Int 512) |}.
Proof.
  apply (count_from_options decimal bytes_decimal (Prim (PStr log))
           (Prim (PNum (Int 7)))
           {| o_n := PUndefined; o_count := PNum (Int 0);
              o_encoding := PStr "utf8"; o_bufferSize := PStr "512" |}
           {| b_path := log; b_count := Int 10;
              b_options :=
                Obj {| o_n := PUndefined; o_count := PNum (Int 0);
                       o_encoding := PStr "utf8";
                       o_bufferSize := PNum (Int 512) |};
              b_bufferSize := PNum (Int 512) |}).
  reflexivity.
Defined.

Lemma options_validated_witness :
  (PNum (Int 512) = PUndefined \/
   isNaN decimal (PNum (Int 512)) = false) /\
  Taf_construct decimal bytes_decimal (Prim (PStr log)) (Prim (PNum (Int 5)))
    (Obj {| o_n := PUndefined; o_count := PUndefined;
            o_encoding := PStr "latin1"; o_bufferSize := PUndefined |})
  = Throws (AssertionError "only UTF-8 encoding is supported").
Proof.
  destruct (options_validated decimal bytes_decimal) as [H1 H2]. split.
  - apply (H1 (Prim (PStr log)) (Prim (PNum (Int 5)))
              (Obj {| o_n := PUndefined; o_count := PUndefined;
                      o_encoding := PStr "utf8";
                      o_bufferSize := PStr "512" |})
              {| b_path := log; b_count := Int 5;
                 b_options :=
                   Obj {| o_n := PUndefined; o_count := PUndefined;
                          o_encoding := PStr "utf8";
                          o_bufferSize := PNum (Int 512) |};
                 b_bufferSize := PNum (Int 512) |}).
    reflexivity.
  - apply (H2 log (Int 5) _ "latin1"); [discriminate|reflexivity|discriminate].
Defined.

Lemma call_drops_options_witness :
  Taf_call decimal bytes_decimal (Prim (PStr log)) (Prim (PNum (Int 5)))
    (Obj {| o_n := PUndefined; o_count := PUndefined;
            o_encoding := PStr "latin1"; o_bufferSize := PStr "x" |})
  = Built {| b_path := log; b_count := Int 5;
             b_options := Obj default_options;
             b_bufferSize := PNum (Int 1024) |}.
Proof.
  apply (call_drops_options decimal bytes_decimal log (Int 5)). discriminate.
Defined.

(** X16. The setter of [exports.fs] accepts a value exactly when it is
    truthy and its [open], [stat], [watch] and [close] are functions;
    [read], which every scan calls, is not looked at.  An accepted value
    is what the getter returns afterwards; a refused one leaves the module
    with the [fs] it had. *)
Theorem fs_setter_accepts (v cur : candidate) :
  (fs_set_check v = None <->
   c_truthy v = true /\ c_open v = "function" /\ c_stat v = "function" /\
   c_watch v = "function" /\ c_close v = "function") /\
  (fs_set_check v = None -> fs_get (fs_set v cur) = v) /\
  (fs_set_check v <> None -> fs_get (fs_set v cur) = cur).
Proof.
  split; [|split].
  - unfold fs_set_check, is_function. split.
    + intros H.
      destruct (c_truthy v); [|discriminate]. simpl in H.
      destruct (String.eqb (c_open v) "function") eqn:E1; [|discriminate].
      destruct (String.eqb (c_stat v) "function") eqn:E2; [|discriminate].
      destruct (String.eqb (c_watch v) "function") eqn:E3; [|discriminate].
      destruct (String.eqb (c_close v) "function") eqn:E4; [|discriminate].
      apply String.eqb_eq in E1, E2, E3, E4. auto.
    + intros (H0 & H1 & H2 & H3 & H4). rewrite H0, H1, H2, H3, H4.
      reflexivity.
  - intros H. unfold fs_get, fs_set. rewrite H. reflexivity.
  - intros H. unfold fs_get, fs_set.
    destruct (fs_set_check v); [reflexivity|congruence].
Qed.

Lemma fs_setter_accepts_witness :
  fs_get (fs_set {| c_truthy := true; c_open := "function";
                    c_stat := "function"; c_read := "undefined";
                    c_watch := "function"; c_close := "function" |}
                 {| c_truthy := true; c_open := "function";
                    c_stat := "function"; c_read := "function";
                    c_watch := "function"; c_close := "function" |})
  = {| c_truthy := true; c_open := "function"; c_stat := "function";
       c_read := "undefined"; c_watch := "function";
       c_close := "function" |}.
Proof.
  destruct (fs_setter_accepts
              {| c_truthy := true; c_open := "function";
                 c_stat := "function"; c_read := "undefined";
                 c_watch := "function"; c_close := "function" |}
              {| c_truthy := true; c_open := "function";
                 c_stat := "function"; c_read := "function";
                 c_watch := "function"; c_close := "function" |})
    as (_ & H & _).
  apply H. reflexivity.
Defined.
